(** * AIStor small-file cache (src/aistor/optimizer.py)

    A shallow embedding of the [AIStor] class: the size parser, the
    cacheability policy, the cache write and read paths, LRU enforcement and
    the statistics view, followed by the properties of the specification
    that are settled against them.

    Conventions of the embedding.
    - Python [str] is [string]; the model covers ASCII text, so [upper] and
      [lower] act on the letters A-Z / a-z only.
    - Python [int] is [Z]; [bytes] is [list byte].
    - [time.time()] values are only ever compared with each other, so a
      timestamp is a [Z]; every operation that reads the clock takes the
      value read as its argument [now].
    - The dict [metadata_cache] keeps insertion order, on which [sorted]
      relies for ties: it is an association list.
    - The filesystem below [/cache/small-files] is a finite map from path
      strings to file contents; it holds no directories, and a write to it
      fails only when [open] refuses the name of the file.
    - [print] appends a line to the console, kept in the state.
    - An exception ends the call with [Raise]; the state reached so far is
      kept, as in Python. *)

From Stdlib Require Import ZArith Lia List Ascii String Sorting.Sorted Sorting.Permutation.
From stdpp Require Import base option list gmap strings.
From Stdlib.Strings Require Import Byte.

Local Open Scope string_scope.
Local Open Scope list_scope.
Local Open Scope Z_scope.

Abbreviation bytes := (list byte).

(** ** Python strings *)

Module Str.

Definition is_upper (c : ascii) : bool :=
  let n := N_of_ascii c in ((65 <=? n) && (n <=? 90))%N.

Definition is_lower (c : ascii) : bool :=
  let n := N_of_ascii c in ((97 <=? n) && (n <=? 122))%N.

Definition upper_char (c : ascii) : ascii :=
  if is_lower c then ascii_of_N (N_of_ascii c - 32) else c.

Definition lower_char (c : ascii) : ascii :=
  if is_upper c then ascii_of_N (N_of_ascii c + 32) else c.

Fixpoint map (f : ascii -> ascii) (s : string) : string :=
  match s with
  | EmptyString => EmptyString
  | String c r => String (f c) (map f r)
  end.

(** [s.upper()] and [s.lower()]. *)
Definition upper : string -> string := map upper_char.
Definition lower : string -> string := map lower_char.

Definition len (s : string) : nat := String.length s.

(** [s[:n]] for [0 <= n]. *)
Fixpoint take (n : nat) (s : string) : string :=
  match n, s with
  | S n', String c r => String c (take n' r)
  | _, _ => EmptyString
  end.

(** [s[n:]] for [0 <= n]. *)
Fixpoint drop (n : nat) (s : string) : string :=
  match n, s with
  | S n', String _ r => drop n' r
  | _, _ => s
  end.

(** [s.endswith(suffix)]. *)
Definition endswith (s suffix : string) : bool :=
  (len suffix <=? len s)%nat &&
  String.eqb (drop (len s - len suffix) s) suffix.

(** [s[:-k]] for [k > 0]: everything but the last [k] characters. *)
Definition drop_last (k : nat) (s : string) : string := take (len s - k) s.

(** [s.rfind(c)]: the index of the last occurrence of [c], if any. *)
Fixpoint rfind (c : ascii) (s : string) : option nat :=
  match s with
  | EmptyString => None
  | String d r =>
      match rfind c r with
      | Some i => Some (S i)
      | None => if Ascii.eqb d c then Some O else None
      end
  end.

(** [s.split(sep)] for a one-character separator. *)
Fixpoint split (sep : ascii) (s : string) : list string :=
  match s with
  | EmptyString => [EmptyString]
  | String c r =>
      if Ascii.eqb c sep then EmptyString :: split sep r
      else match split sep r with
           | h :: t => String c h :: t
           | [] => [String c EmptyString]
           end
  end.

End Str.

(** ** Exceptions and the result of a call *)

Inductive exn :=
  | ValueError | TypeError | KeyError | ZeroDivisionError | OverflowError | OSError.

Inductive outcome (A : Type) :=
  | Return (a : A)
  | Raise (e : exn).
Arguments Return {A} a.
Arguments Raise {A} e.

(** ** The builtin [int(str)]

    Surrounding whitespace is stripped, one sign is allowed, and the rest is
    a non-empty run of decimal digits in which single underscores may stand
    between digits.  CPython refuses more than 4300 digits
    ([sys.int_info.default_max_str_digits]). *)

Module PyInt.

Definition is_space (c : ascii) : bool :=
  let n := N_of_ascii c in
  (((9 <=? n) && (n <=? 13)) || ((28 <=? n) && (n <=? 32)))%N.

Definition is_digit (c : ascii) : bool :=
  let n := N_of_ascii c in ((48 <=? n) && (n <=? 57))%N.

Definition digit_value (c : ascii) : Z := Z.of_N (N_of_ascii c) - 48.

Fixpoint lstrip (s : string) : string :=
  match s with
  | String c r => if is_space c then lstrip r else s
  | EmptyString => EmptyString
  end.

(** Strips trailing whitespace: a character is kept when something that is
    not whitespace follows it, or when it is not whitespace itself. *)
Fixpoint rstrip (s : string) : string :=
  match s with
  | EmptyString => EmptyString
  | String c r =>
      match rstrip r with
      | EmptyString => if is_space c then EmptyString else String c EmptyString
      | r' => String c r'
      end
  end.

Definition strip (s : string) : string := lstrip (rstrip s).

(** The digit part is well formed: it ends on a digit, starts on one, and
    every underscore follows a digit. *)
Fixpoint digits_ok (after_digit : bool) (s : string) : bool :=
  match s with
  | EmptyString => after_digit
  | String c r =>
      if is_digit c then digits_ok true r
      else if Ascii.eqb c "_" then after_digit && digits_ok false r
      else false
  end.

Fixpoint count_digits (s : string) : nat :=
  match s with
  | EmptyString => O
  | String c r => if is_digit c then S (count_digits r) else count_digits r
  end.

Fixpoint digits_value (acc : Z) (s : string) : Z :=
  match s with
  | EmptyString => acc
  | String c r =>
      if is_digit c then digits_value (10 * acc + digit_value c) r
      else digits_value acc r
  end.

Definition max_str_digits : nat := 4300.

Definition unsigned (s : string) : outcome Z :=
  if digits_ok false s && (count_digits s <=? max_str_digits)%nat
  then Return (digits_value 0 s)
  else Raise ValueError.

Definition negated (r : outcome Z) : outcome Z :=
  match r with
  | Return n => Return (- n)
  | Raise e => Raise e
  end.

Definition int (s : string) : outcome Z :=
  match strip s with
  | String c r =>
      if Ascii.eqb c "+" then unsigned r
      else if Ascii.eqb c "-" then negated (unsigned r)
      else unsigned (String c r)
  | EmptyString => unsigned EmptyString
  end.

(** A string of decimal digits only. *)
Fixpoint all_digits (s : string) : bool :=
  match s with
  | EmptyString => true
  | String c r => is_digit c && all_digits r
  end.

(** A character that can end neither the digits nor the whitespace. *)
Definition junk (c : ascii) : Prop :=
  is_space c = false /\ is_digit c = false /\ Ascii.eqb c "_" = false.

End PyInt.

(** ** [pathlib.PurePosixPath]: [name] and [suffix] *)

Module Path.

(** Empty components and ["."] components are dropped when a path is
    parsed; [".."] is kept. *)
Definition is_part (c : string) : bool :=
  negb (String.eqb c "") && negb (String.eqb c ".").

Definition parts (s : string) : list string :=
  List.filter is_part (Str.split "/" s).

(** [Path(s).name]: the last component, or [""] when there is none. *)
Definition name (s : string) : string := List.last (parts s) "".

(** [Path(s).suffix]: from the last dot of the name, unless that dot is the
    first or the last character of the name. *)
Definition suffix (s : string) : string :=
  let n := name s in
  match Str.rfind "." n with
  | Some i =>
      if ((0 <? i)%nat && (i <? Str.len n - 1)%nat) then Str.drop i n else ""
  | None => ""
  end.

End Path.

(** ** Opening a file for writing

    [open(path, 'wb')] in a directory that exists.  Python refuses a path
    with a NUL character before it asks the system (ValueError, "embedded
    null byte"); the system refuses a name of more than [NAME_MAX] bytes
    (OSError, "File name too long").  The name is encoded in UTF-8: one byte
    for an ASCII character, two for the other characters a [string] holds
    (U+0080 to U+00FF). *)

Module OS.

Definition NAME_MAX : nat := 255.

Fixpoint has_nul (s : string) : bool :=
  match s with
  | EmptyString => false
  | String c r => Ascii.eqb c "000" || has_nul r
  end.

Fixpoint encoded_length (s : string) : nat :=
  match s with
  | EmptyString => O
  | String c r => ((if (N_of_ascii c <? 128)%N then 1 else 2) + encoded_length r)%nat
  end.

(** The exception that opening a file of this name raises, if any. *)
Definition open_wb (name : string) : option exn :=
  if has_nul name then Some ValueError
  else if (NAME_MAX <? encoded_length name)%nat then Some OSError
  else None.

End OS.

(** ** [hashlib.sha256] (FIPS 180-4)

    Words are 32-bit, held in [Z] and cut to their low 32 bits by [w32]
    after every addition; the message is padded with a one bit, zeros and its length in
    bits as a 64-bit big-endian number, and consumed in blocks of 64 bytes. *)

Module SHA256.

Definition w32 (x : Z) : Z := Z.land x 4294967295.

Definition add (x y : Z) : Z := w32 (x + y).

Definition rotr (n x : Z) : Z :=
  Z.lor (Z.shiftr x n) (w32 (Z.shiftl x (32 - n))).

Definition Ch (x y z : Z) : Z :=
  Z.lxor (Z.land x y) (Z.land (Z.lxor x 4294967295) z).

Definition Maj (x y z : Z) : Z :=
  Z.lxor (Z.lxor (Z.land x y) (Z.land x z)) (Z.land y z).

Definition Sigma0 (x : Z) : Z := Z.lxor (Z.lxor (rotr 2 x) (rotr 13 x)) (rotr 22 x).
Definition Sigma1 (x : Z) : Z := Z.lxor (Z.lxor (rotr 6 x) (rotr 11 x)) (rotr 25 x).
Definition sigma0 (x : Z) : Z := Z.lxor (Z.lxor (rotr 7 x) (rotr 18 x)) (Z.shiftr x 3).
Definition sigma1 (x : Z) : Z := Z.lxor (Z.lxor (rotr 17 x) (rotr 19 x)) (Z.shiftr x 10).

(** The round constants, in decimal. *)
Definition K256 : list Z :=
  1116352408 :: 1899447441 :: 3049323471 :: 3921009573 :: 961987163 :: 1508970993 ::
  2453635748 :: 2870763221 :: 3624381080 :: 310598401 :: 607225278 :: 1426881987 ::
  1925078388 :: 2162078206 :: 2614888103 :: 3248222580 :: 3835390401 :: 4022224774 ::
  264347078 :: 604807628 :: 770255983 :: 1249150122 :: 1555081692 :: 1996064986 ::
  2554220882 :: 2821834349 :: 2952996808 :: 3210313671 :: 3336571891 :: 3584528711 ::
  113926993 :: 338241895 :: 666307205 :: 773529912 :: 1294757372 :: 1396182291 ::
  1695183700 :: 1986661051 :: 2177026350 :: 2456956037 :: 2730485921 :: 2820302411 ::
  3259730800 :: 3345764771 :: 3516065817 :: 3600352804 :: 4094571909 :: 275423344 ::
  430227734 :: 506948616 :: 659060556 :: 883997877 :: 958139571 :: 1322822218 ::
  1537002063 :: 1747873779 :: 1955562222 :: 2024104815 :: 2227730452 :: 2361852424 ::
  2428436474 :: 2756734187 :: 3204031479 :: 3329325298 :: nil.

Record regs := Regs { ra : Z; rb : Z; rc : Z; rd : Z; re : Z; rf : Z; rg : Z; rh : Z }.

Definition initial : regs :=
  Regs 1779033703 3144134277 1013904242 2773480762
       1359893119 2600822924 528734635 1541459225.

(** Four bytes as a big-endian word. *)
Fixpoint words (bs : list Z) : list Z :=
  match bs with
  | b0 :: b1 :: b2 :: b3 :: r =>
      (((b0 * 256 + b1) * 256 + b2) * 256 + b3) :: words r
  | _ => nil
  end.

(** The message schedule, newest word first: each step adds W[t] from
    W[t-2], W[t-7], W[t-15] and W[t-16]. *)
Fixpoint schedule (n : nat) (w : list Z) : list Z :=
  match n with
  | O => w
  | S n' =>
      let at_ i := List.nth i w 0 in
      schedule n'
        (add (add (sigma1 (at_ 1%nat)) (at_ 6%nat))
             (add (sigma0 (at_ 14%nat)) (at_ 15%nat)) :: w)
  end.

Definition round (r : regs) (kw : Z * Z) : regs :=
  let t1 := add (add (add (rh r) (Sigma1 (re r))) (Ch (re r) (rf r) (rg r)))
                (add (fst kw) (snd kw)) in
  let t2 := add (Sigma0 (ra r)) (Maj (ra r) (rb r) (rc r)) in
  Regs (add t1 t2) (ra r) (rb r) (rc r) (add (rd r) t1) (re r) (rf r) (rg r).

Definition compress (h : regs) (block : list Z) : regs :=
  let w := List.rev (schedule 48 (List.rev (words block))) in
  let r := List.fold_left round (List.combine K256 w) h in
  Regs (add (ra h) (ra r)) (add (rb h) (rb r)) (add (rc h) (rc r))
       (add (rd h) (rd r)) (add (re h) (re r)) (add (rf h) (rf r))
       (add (rg h) (rg r)) (add (rh h) (rh r)).

Fixpoint blocks (n : nat) (h : regs) (bs : list Z) : regs :=
  match n with
  | O => h
  | S n' => blocks n' (compress h (List.firstn 64 bs)) (List.skipn 64 bs)
  end.

(** [n] as [k] big-endian bytes. *)
Fixpoint be_bytes (k : nat) (n : Z) : list Z :=
  match k with
  | O => nil
  | S k' => be_bytes k' (n / 256) ++ [n mod 256]
  end.

Definition pad (msg : list Z) : list Z :=
  let l := Z.of_nat (List.length msg) in
  let zeros := Z.to_nat ((55 - l) mod 64) in
  msg ++ 128 :: List.repeat 0 zeros ++ be_bytes 8 (8 * l).

Definition digest (data : bytes) : regs :=
  let m := pad (List.map (fun b => Z.of_N (Byte.to_N b)) data) in
  blocks (Nat.div (List.length m) 64) initial m.

Definition hex_digit (n : Z) : ascii :=
  ascii_of_N (Z.to_N (if n <? 10 then 48 + n else 87 + n)).

Fixpoint hex (k : nat) (n : Z) (acc : string) : string :=
  match k with
  | O => acc
  | S k' => hex k' (n / 16) (String (hex_digit (n mod 16)) acc)
  end.

(** [hashlib.sha256(data).hexdigest()[:16]]: the first two words of the
    digest as sixteen lower-case hexadecimal digits. *)
Definition hexdigest16 (data : bytes) : string :=
  let d := digest data in hex 8 (ra d) (hex 8 (rb d) "").

End SHA256.

(** ** Python dicts with string keys, in insertion order *)

Module Dict.
Section Dict.
Context {V : Type}.

(** [d[k]], or [None] when [k not in d]. *)
Fixpoint get (k : string) (d : list (string * V)) : option V :=
  match d with
  | [] => None
  | (k', v) :: r => if String.eqb k' k then Some v else get k r
  end.

(** [k in d]. *)
Definition contains (k : string) (d : list (string * V)) : bool :=
  match get k d with Some _ => true | None => false end.

(** [d[k] = v]: an existing key keeps its place, a new one goes last. *)
Fixpoint set (k : string) (v : V) (d : list (string * V)) : list (string * V) :=
  match d with
  | [] => [(k, v)]
  | (k', v') :: r =>
      if String.eqb k' k then (k, v) :: r else (k', v') :: set k v r
  end.

(** [del d[k]] for a key that is present. *)
Definition del (k : string) (d : list (string * V)) : list (string * V) :=
  List.filter (fun kv => negb (String.eqb (fst kv) k)) d.

Definition keys (d : list (string * V)) : list string := List.map fst d.

End Dict.
End Dict.

(** ** [sorted]: a stable sort by an integer key

    Insertion from the right: an element goes in front of the first element
    whose key is not smaller, so equal keys stay in their original order.
    With [reverse=True] CPython reverses the list, sorts it, and reverses
    the result. *)

Module Sort.
Section Sort.
Context {A : Type} (key : A -> Z).

Fixpoint insert (x : A) (l : list A) : list A :=
  match l with
  | [] => [x]
  | y :: r => if key x <=? key y then x :: l else y :: insert x r
  end.

Definition sorted (l : list A) : list A := List.fold_right insert [] l.

Definition sorted_reverse (l : list A) : list A :=
  List.rev (sorted (List.rev l)).

(** The orders a sorted list is in, by key. *)
Definition ascending (a b : A) : Prop := key a <= key b.
Definition descending (a b : A) : Prop := key b <= key a.

(** The entries whose key is [t], in the order of the list. *)
Definition with_key (t : Z) (l : list A) : list A :=
  List.filter (fun x => key x =? t) l.

End Sort.
End Sort.

(** ** The cache *)

Record FileMetadata := {
  file_path : string;
  size : Z;
  hash : string;
  access_count : Z;
  last_access : Z;
  cache_location : option string }.

(** The lines the cache prints. *)
Inductive line :=
  | Initialized
  | Cached (file_path cache_path : string)
  | CacheHit (file_path : string)
  | Evicted (file_path : string).

(** The fields of [self] that the methods use, with the files on disk and
    the console. *)
Record state := {
  small_file_threshold : Z;
  cache_size_limit : Z;
  metadata_cache : list (string * FileMetadata);
  current_cache_size : Z;
  disk : gmap string bytes;
  stdout : list line }.

Definition with_metadata_cache (d : list (string * FileMetadata)) (s : state) : state :=
  {| small_file_threshold := small_file_threshold s;
     cache_size_limit := cache_size_limit s;
     metadata_cache := d;
     current_cache_size := current_cache_size s;
     disk := disk s;
     stdout := stdout s |}.

Definition with_current_cache_size (n : Z) (s : state) : state :=
  {| small_file_threshold := small_file_threshold s;
     cache_size_limit := cache_size_limit s;
     metadata_cache := metadata_cache s;
     current_cache_size := n;
     disk := disk s;
     stdout := stdout s |}.

Definition with_disk (fs : gmap string bytes) (s : state) : state :=
  {| small_file_threshold := small_file_threshold s;
     cache_size_limit := cache_size_limit s;
     metadata_cache := metadata_cache s;
     current_cache_size := current_cache_size s;
     disk := fs;
     stdout := stdout s |}.

Definition with_stdout (out : list line) (s : state) : state :=
  {| small_file_threshold := small_file_threshold s;
     cache_size_limit := cache_size_limit s;
     metadata_cache := metadata_cache s;
     current_cache_size := current_cache_size s;
     disk := disk s;
     stdout := out |}.

(** A method call: it runs on a state and ends with a value or an
    exception, and a state. *)
Definition M (A : Type) : Type := state -> outcome A * state.

Definition ret {A} (a : A) : M A := fun s => (Return a, s).
Definition raise {A} (e : exn) : M A := fun s => (Raise e, s).
Definition bind {A B} (m : M A) (k : A -> M B) : M B :=
  fun s =>
    match m s with
    | (Return a, s') => k a s'
    | (Raise e, s') => (Raise e, s')
    end.
Definition gets {A} (f : state -> A) : M A := fun s => (Return (f s), s).
Definition modify (f : state -> state) : M unit := fun s => (Return tt, f s).

Notation "x <- m ;; k" := (bind m (fun x => k))
  (at level 100, m at next level, right associativity).
Notation "m ;; k" := (bind m (fun _ => k))
  (at level 100, right associativity).

Definition print (l : line) : M unit :=
  modify (fun s => with_stdout (stdout s ++ [l]) s).

(** [_parse_size]: the suffixes are tried in the order the dict literal
    lists them. *)
Definition multipliers : list (string * Z) :=
  [("B", 1); ("KB", 1024); ("MB", 1048576); ("GB", 1073741824)].

Fixpoint parse_size_loop (size_str : string) (items : list (string * Z)) : outcome Z :=
  match items with
  | [] => PyInt.int size_str
  | (suffix, multiplier) :: rest =>
      if Str.endswith size_str suffix then
        match PyInt.int (Str.drop_last (Str.len suffix) size_str) with
        | Return n => Return (n * multiplier)
        | Raise e => Raise e
        end
      else parse_size_loop size_str rest
  end.

Definition _parse_size (size_str : string) : outcome Z :=
  parse_size_loop (Str.upper size_str) multipliers.

(** [os.getenv(name, default)]. *)
Definition getenv (env : gmap string string) (name default : string) : string :=
  match env !! name with Some v => v | None => default end.

(** [__init__] when no metadata snapshot is on disk: the two configuration
    values are read, the index starts empty and the counter at zero. *)
Definition __init__ (env : gmap string string) (fs : gmap string bytes) : outcome state :=
  match PyInt.int (getenv env "SMALL_FILE_THRESHOLD" "1048576") with
  | Raise e => Raise e
  | Return threshold =>
      match _parse_size (getenv env "CACHE_SIZE" "1GB") with
      | Raise e => Raise e
      | Return limit =>
          Return {| small_file_threshold := threshold;
                    cache_size_limit := limit;
                    metadata_cache := [];
                    current_cache_size := 0;
                    disk := fs;
                    stdout := [Initialized] |}
      end
  end.

Definition robotics_extensions : list string :=
  [".json"; ".yaml"; ".yml"; ".csv"; ".txt"; ".pkl"].

Definition should_cache (self : state) (file_path : string) (file_size : Z) : bool :=
  if file_size >? small_file_threshold self then false
  else List.existsb (String.eqb (Str.lower (Path.suffix file_path))) robotics_extensions.

Definition small_files_dir : string := "/cache/small-files".

(** Lines 87-88: the cache path that [cache_file] derives from a logical
    path and a payload. *)
Definition cache_path_of (file_path : string) (file_data : bytes) : string :=
  small_files_dir +:+ "/" +:+ SHA256.hexdigest16 file_data +:+ "_" +:+ Path.name file_path.

(** [self.current_cache_size <= self.cache_size_limit * 0.8].  The product
    is a float and the comparison of an int with a float is exact; for
    limits below 2^50 it holds exactly when [5 * size <= 4 * limit]. *)
Definition low_water (s : state) : bool :=
  5 * current_cache_size s <=? 4 * cache_size_limit s.

(** The body of the eviction loop for one entry of the sorted snapshot. *)
Definition evict (file_path : string) (metadata : FileMetadata) : M unit :=
  match cache_location metadata with
  | None => raise TypeError
  | Some cache_path =>
      fs <- gets disk ;;
      match fs !! cache_path with
      | Some _ =>
          modify (fun s => with_disk (delete cache_path (disk s)) s) ;;
          modify (fun s => with_current_cache_size (current_cache_size s - size metadata) s)
      | None => ret tt
      end ;;
      d <- gets metadata_cache ;;
      if Dict.contains file_path d
      then modify (with_metadata_cache (Dict.del file_path d)) ;;
           print (Evicted file_path)
      else raise KeyError
  end.

Fixpoint sweep (sorted_files : list (string * FileMetadata)) : M unit :=
  match sorted_files with
  | [] => ret tt
  | (file_path, metadata) :: rest =>
      stop <- gets low_water ;;
      if stop then ret tt
      else evict file_path metadata ;; sweep rest
  end.

Definition _enforce_cache_limits : M unit :=
  size <- gets current_cache_size ;;
  limit <- gets cache_size_limit ;;
  if size <=? limit then ret tt
  else
    d <- gets metadata_cache ;;
    sweep (Sort.sorted (fun kv => last_access (snd kv)) d).

(** [cache_file].  The [open] of line 91 comes before anything is changed:
    when it raises, the index, the counter and the disk are as they were. *)
Definition cache_file (file_path : string) (file_data : bytes) (now : Z) : M string :=
  let file_hash := SHA256.hexdigest16 file_data in
  let file_name := file_hash +:+ "_" +:+ Path.name file_path in
  let cache_path := small_files_dir +:+ "/" +:+ file_name in
  match OS.open_wb file_name with
  | Some e => raise e
  | None =>
      modify (fun s => with_disk (<[cache_path := file_data]> (disk s)) s) ;;
      let metadata :=
        {| file_path := file_path;
           size := Z.of_nat (List.length file_data);
           hash := file_hash;
           access_count := 1;
           last_access := now;
           cache_location := Some cache_path |} in
      modify (fun s =>
        with_metadata_cache (Dict.set file_path metadata (metadata_cache s)) s) ;;
      modify (fun s =>
        with_current_cache_size
          (current_cache_size s + Z.of_nat (List.length file_data)) s) ;;
      _enforce_cache_limits ;;
      print (Cached file_path cache_path) ;;
      ret cache_path
  end.

Definition touch (now : Z) (m : FileMetadata) : FileMetadata :=
  {| file_path := file_path m;
     size := size m;
     hash := hash m;
     access_count := access_count m + 1;
     last_access := now;
     cache_location := cache_location m |}.

Definition get_cached_file (file_path : string) (now : Z) : M (option bytes) :=
  d <- gets metadata_cache ;;
  match Dict.get file_path d with
  | None => ret None
  | Some metadata =>
      match cache_location metadata with
      | None => raise TypeError
      | Some cache_path =>
          fs <- gets disk ;;
          match fs !! cache_path with
          | None =>
              modify (fun s => with_metadata_cache (Dict.del file_path (metadata_cache s)) s) ;;
              ret None
          | Some data =>
              modify (fun s =>
                with_metadata_cache
                  (Dict.set file_path (touch now metadata) (metadata_cache s)) s) ;;
              print (CacheHit file_path) ;;
              ret (Some data)
          end
      end
  end.

(** [round(n / 1024 / 1024, 2)] in hundredths: the quotient is exact as a
    float for counters below 2^53, and [round] goes to the nearest hundredth,
    to the even one on a tie. *)
Definition round_half_even (num den : Z) : Z :=
  let q := num / den in
  let r := num mod den in
  if 2 * r <? den then q
  else if den <? 2 * r then q + 1
  else if Z.even q then q else q + 1.

Definition mb_hundredths (n : Z) : Z := round_half_even (n * 100) 1048576.

(** The result of [get_cache_stats].  The two megabyte figures are in
    hundredths; [cache_utilization] and [avg_file_size_kb] are float
    quotients and are left out, except that the first divides by the limit. *)
Record stats := {
  total_cached_files : Z;
  current_cache_size_mb : Z;
  cache_limit_mb : Z;
  most_accessed_files : list (string * Z) }.

(** [a / b] on two ints is the float nearest to the quotient, and raises
    OverflowError when no float is: from [2^1024 - 2^970] on, in absolute
    value.  ([b] is not zero here.) *)
Definition too_large (a b : Z) : bool :=
  (2 ^ 1024 - 2 ^ 970) * Z.abs b <=? Z.abs a.

(** The quotients of ints that [get_cache_stats] takes before it divides
    by the limit: the counter by the number of files if there are any, the
    counter by 1024 and the limit by 1024. *)
Definition early_overflow (s : state) : bool :=
  let total_files := Z.of_nat (List.length (metadata_cache s)) in
  ((0 <? total_files) && too_large (current_cache_size s) total_files)
  || too_large (current_cache_size s) 1024
  || too_large (cache_size_limit s) 1024.

Definition stats_overflow (s : state) : bool :=
  early_overflow s || too_large (current_cache_size s) (cache_size_limit s).

(** [get_cache_stats]: the quotients are taken in the order of the source,
    so that a limit of zero raises ZeroDivisionError only if the quotients
    before it exist. *)
Definition get_cache_stats : M stats :=
  d <- gets metadata_cache ;;
  size <- gets current_cache_size ;;
  limit <- gets cache_size_limit ;;
  early <- gets early_overflow ;;
  let total_files := Z.of_nat (List.length d) in
  if early then raise OverflowError
  else if limit =? 0 then raise ZeroDivisionError
  else if too_large size limit then raise OverflowError
  else
    ret {| total_cached_files := total_files;
           current_cache_size_mb := mb_hundredths size;
           cache_limit_mb := mb_hundredths limit;
           most_accessed_files :=
             List.map (fun kv => (fst kv, access_count (snd kv)))
               (List.firstn 5
                  (Sort.sorted_reverse (fun kv => access_count (snd kv)) d)) |}.

(** ** The metadata snapshot

    [monitor_loop] writes the index to [/cache/metadata/cache_metadata.json]
    with [json.dump], and [_initialize_cache] reads it back with
    [json.load].  The file is modelled by what [json.load] makes of it: an
    error for text that is not JSON, and otherwise the Python value of the
    document, which for the values written here (strings, ints, floats,
    [None], and dicts with string keys, in order) is the value that was
    dumped. *)

#[local] Unset Elimination Schemes.
Inductive pyval :=
  | PNone
  | PBool (b : bool)
  | PInt (n : Z)
  | PFloat (t : Z)
  | PStr (s : string)
  | PList (l : list pyval)
  | PDict (d : list (string * pyval)).
#[local] Set Elimination Schemes.

Inductive document :=
  | Garbage
  | Parsed (v : pyval).

(** [asdict(metadata)]: the fields in the order of their declaration. *)
Definition asdict (m : FileMetadata) : pyval :=
  PDict
    [("file_path", PStr (file_path m));
     ("size", PInt (size m));
     ("hash", PStr (hash m));
     ("access_count", PInt (access_count m));
     ("last_access", PFloat (last_access m));
     ("cache_location",
      match cache_location m with Some loc => PStr loc | None => PNone end)].

(** [{k: asdict(v) for k, v in self.metadata_cache.items()}]. *)
Definition metadata_document (d : list (string * FileMetadata)) : pyval :=
  PDict (List.map (fun kv => (fst kv, asdict (snd kv))) d).

(** A [FileMetadata] as the dataclass constructor leaves it: whatever
    values the keywords carried, unchecked. *)
Record raw_metadata := {
  raw_file_path : pyval;
  raw_size : pyval;
  raw_hash : pyval;
  raw_access_count : pyval;
  raw_last_access : pyval;
  raw_cache_location : pyval }.

Definition field_names : list string :=
  ["file_path"; "size"; "hash"; "access_count"; "last_access"; "cache_location"].

(** [FileMetadata] called with the keywords of [v]: [v] must be a mapping,
    every key the name of a field, and the five fields without a default
    present; every failure is a TypeError.  [cache_location] defaults to
    [None]. *)
Definition FileMetadata_of_kwargs (v : pyval) : outcome raw_metadata :=
  match v with
  | PDict kw =>
      if List.forallb (fun kv => List.existsb (String.eqb (fst kv)) field_names) kw then
        match Dict.get "file_path" kw, Dict.get "size" kw, Dict.get "hash" kw,
              Dict.get "access_count" kw, Dict.get "last_access" kw with
        | Some p, Some n, Some h, Some c, Some t =>
            Return {| raw_file_path := p;
                      raw_size := n;
                      raw_hash := h;
                      raw_access_count := c;
                      raw_last_access := t;
                      raw_cache_location :=
                        match Dict.get "cache_location" kw with
                        | Some loc => loc
                        | None => PNone
                        end |}
        | _, _, _, _, _ => Raise TypeError
        end
      else Raise TypeError
  | _ => Raise TypeError
  end.

(** The comprehension over [data.items()] that builds the index: the first
    record that fails ends it. *)
Fixpoint load_records (items : list (string * pyval)) :
    outcome (list (string * raw_metadata)) :=
  match items with
  | [] => Return []
  | (k, v) :: rest =>
      match FileMetadata_of_kwargs v with
      | Raise e => Raise e
      | Return m =>
          match load_records rest with
          | Raise e => Raise e
          | Return r => Return ((k, m) :: r)
          end
      end
  end.

(** The record with the types its annotations declare, when its values
    have them. *)
Definition typed (r : raw_metadata) : option FileMetadata :=
  match raw_file_path r, raw_size r, raw_hash r, raw_access_count r, raw_last_access r with
  | PStr p, PInt n, PStr h, PInt c, PFloat t =>
      match raw_cache_location r with
      | PStr loc =>
          Some {| file_path := p; size := n; hash := h; access_count := c;
                  last_access := t; cache_location := Some loc |}
      | PNone =>
          Some {| file_path := p; size := n; hash := h; access_count := c;
                  last_access := t; cache_location := None |}
      | _ => None
      end
  | _, _, _, _, _ => None
  end.

Fixpoint typed_records (l : list (string * raw_metadata)) :
    option (list (string * FileMetadata)) :=
  match l with
  | [] => Some []
  | (k, r) :: rest =>
      match typed r, typed_records rest with
      | Some m, Some d => Some ((k, m) :: d)
      | _, _ => None
      end
  end.

(** How the construction of the cache ends.  [Untyped] stands for a cache
    whose index holds a value of another type than the dataclass declares:
    the code constructs it, the embedding has no state for it. *)
Inductive startup :=
  | Started (s : state)
  | Failed (e : exn)
  | FailedAttributeError
  | Untyped.

(** Lines 69-72, the banner: the threshold and the limit are each divided
    by 1024 as ints before they are printed. *)
Definition banner_overflow (s : state) : bool :=
  too_large (small_file_threshold s) 1024 || too_large (cache_size_limit s) 1024.

Definition banner (s : state) : startup :=
  if banner_overflow s then Failed OverflowError
  else Started (with_stdout (stdout s ++ [Initialized]) s).

(** [_initialize_cache]: the directories are made, the snapshot is loaded
    if the file exists, and the banner is printed.  A file that is not JSON
    raises [json.JSONDecodeError], a ValueError; a document that is not an
    object has no [items]. *)
Definition _initialize_cache (metadata_file : option document) (s : state) : startup :=
  match metadata_file with
  | None => banner s
  | Some Garbage => Failed ValueError
  | Some (Parsed (PDict items)) =>
      match load_records items with
      | Raise e => Failed e
      | Return records =>
          match typed_records records with
          | Some d => banner (with_metadata_cache d s)
          | None => Untyped
          end
      end
  | Some (Parsed _) => FailedAttributeError
  end.

(** [AIStor()]: the whole of the constructor, with the snapshot file as
    found on disk. *)
Definition AIStor (env : gmap string string) (fs : gmap string bytes)
    (metadata_file : option document) : startup :=
  match PyInt.int (getenv env "SMALL_FILE_THRESHOLD" "1048576") with
  | Raise e => Failed e
  | Return threshold =>
      match _parse_size (getenv env "CACHE_SIZE" "1GB") with
      | Raise e => Failed e
      | Return limit =>
          _initialize_cache metadata_file
            {| small_file_threshold := threshold;
               cache_size_limit := limit;
               metadata_cache := [];
               current_cache_size := 0;
               disk := fs;
               stdout := [] |}
      end
  end.

(** ** The monitoring loop

    The loop never ends by itself; [monitor_loop n] is what it has done
    after [n] passes.  A pass computes the statistics, prints them and
    writes the snapshot; any exception on the way is caught and printed,
    and the pass ends there.  The sleeps are not modelled, and of the
    statistics line only the number of files is kept. *)

Inductive monitor_line :=
  | Starting
  | Stats (total_cached_files : Z)
  | Failure (e : exn).

Record host := {
  cache : state;
  metadata_file : option document;
  monitor_out : list monitor_line }.

(** [json.dump] writes an int in decimal, which raises ValueError for more
    digits than [int] reads; the other values of an entry are strings, a
    float and [None]. *)
Definition short (n : Z) : bool := Z.abs n <? 10 ^ Z.of_nat PyInt.max_str_digits.

Definition dumpable (d : list (string * FileMetadata)) : bool :=
  List.forallb (fun kv => short (size (snd kv)) && short (access_count (snd kv))) d.

(** A pass that ends in the handler before the snapshot file is opened. *)
Definition failed_pass (l : monitor_line) (s : state) (h : host) : host :=
  {| cache := s;
     metadata_file := metadata_file h;
     monitor_out := monitor_out h ++ [l] |}.

(** Lines 188-207, one pass.  The file is opened for writing, and so
    emptied, before [json.dump] runs: a dump that raises leaves a file that
    is not JSON. *)
Definition monitor_pass (h : host) : host :=
  match get_cache_stats (cache h) with
  | (Raise e, s) => failed_pass (Failure e) s h
  | (Return st, s) =>
      if dumpable (metadata_cache s) then
        {| cache := s;
           metadata_file := Some (Parsed (metadata_document (metadata_cache s)));
           monitor_out := monitor_out h ++ [Stats (total_cached_files st)] |}
      else
        {| cache := s;
           metadata_file := Some Garbage;
           monitor_out :=
             monitor_out h ++ [Stats (total_cached_files st); Failure ValueError] |}
  end.

Fixpoint monitor_passes (n : nat) (h : host) : host :=
  match n with
  | O => h
  | S n' => monitor_passes n' (monitor_pass h)
  end.

Definition monitor_loop (n : nat) (h : host) : host :=
  monitor_passes n
    {| cache := cache h;
       metadata_file := metadata_file h;
       monitor_out := monitor_out h ++ [Starting] |}.

Arguments SHA256.hexdigest16 : simpl never.
Arguments cache_path_of : simpl never.

(** The payload of the examples: the bytes of an ASCII string. *)
Definition payload (s : string) : bytes :=
  List.map byte_of_ascii (list_ascii_of_string s).

(** A cache that has just been constructed with the given configuration. *)
Definition fresh (threshold limit : Z) : state :=
  {| small_file_threshold := threshold;
     cache_size_limit := limit;
     metadata_cache := [];
     current_cache_size := 0;
     disk := ∅;
     stdout := [Initialized] |}.

(** The sum of [size] over the entries of the index. *)
Definition total_size (d : list (string * FileMetadata)) : Z :=
  List.fold_right (fun kv acc => size (snd kv) + acc) 0 d.

(** * The vocabulary of the properties *)

(** Every entry names its cache file. *)
Definition has_location (kv : string * FileMetadata) : Prop :=
  cache_location (snd kv) <> None.

(** The index is a dict (no key twice) whose entries name their files, as
    every entry written by [cache_file] does. *)
Definition wf (s : state) : Prop :=
  List.NoDup (Dict.keys (metadata_cache s)) /\ Forall has_location (metadata_cache s).

(** The state after the loop body has run for one entry, and for the
    entries of a list one after the other. *)
Definition evicted (s : state) (kv : string * FileMetadata) : state :=
  snd (evict (fst kv) (snd kv) s).

Definition evicted_all (l : list (string * FileMetadata)) (s : state) : state :=
  List.fold_left evicted l s.

(** The entries of [d] whose key is not among [ks], in the order of [d]. *)
Definition without (ks : list string) (d : list (string * FileMetadata)) :
  list (string * FileMetadata) :=
  List.filter (fun kv => negb (List.existsb (String.eqb (fst kv)) ks)) d.

(** A snapshot of the index that the loop can run through: its keys are
    distinct and still in the index, and its entries name their files. *)
Definition snapshot_ok (l : list (string * FileMetadata)) (s : state) : Prop :=
  List.NoDup (Dict.keys l) /\
  (forall k, In k (Dict.keys l) -> In k (Dict.keys (metadata_cache s))) /\
  Forall has_location l.

Definition sizes_nonneg (l : list (string * FileMetadata)) : Prop :=
  Forall (fun kv => 0 <= size (snd kv)) l.

(** [wf], decided. *)
Fixpoint distinct (l : list string) : bool :=
  match l with
  | [] => true
  | k :: r => negb (List.existsb (String.eqb k) r) && distinct r
  end.

Definition wf_dec (s : state) : bool :=
  distinct (Dict.keys (metadata_cache s)) &&
  List.forallb
    (fun kv => match cache_location (snd kv) with Some _ => true | None => false end)
    (metadata_cache s).

(** The key of the LRU sort. *)
Definition by_last_access (kv : string * FileMetadata) : Z := last_access (snd kv).

(** The snapshot [sorted(self.metadata_cache.items(), key=...)]. *)
Definition sorted_files (s : state) : list (string * FileMetadata) :=
  Sort.sorted by_last_access (metadata_cache s).

(** The key of the ranking in [get_cache_stats]. *)
Definition by_access_count (kv : string * FileMetadata) : Z := access_count (snd kv).

(** The entry that [cache_file] builds, and the state it has reached when
    it calls [_enforce_cache_limits]. *)
Definition new_metadata (path : string) (file_data : bytes) (now : Z) : FileMetadata :=
  {| file_path := path;
     size := Z.of_nat (List.length file_data);
     hash := SHA256.hexdigest16 file_data;
     access_count := 1;
     last_access := now;
     cache_location := Some (cache_path_of path file_data) |}.

Definition inserted (path : string) (file_data : bytes) (now : Z) (s : state) : state :=
  {| small_file_threshold := small_file_threshold s;
     cache_size_limit := cache_size_limit s;
     metadata_cache := Dict.set path (new_metadata path file_data now) (metadata_cache s);
     current_cache_size := current_cache_size s + Z.of_nat (List.length file_data);
     disk := <[cache_path_of path file_data := file_data]> (disk s);
     stdout := stdout s |}.

(** One step in the life of a cache: a write, a read, an enforcement, or a
    cache file deleted behind its back. *)
Inductive step : state -> state -> Prop :=
  | step_write s p b now : step s (snd (cache_file p b now s))
  | step_read s p now : step s (snd (get_cached_file p now s))
  | step_enforce s : step s (snd (_enforce_cache_limits s))
  | step_unlink s loc : step s (with_disk (delete loc (disk s)) s).

(** The states a cache can be in when it started in [s0]. *)
Inductive reachable (s0 : state) : state -> Prop :=
  | reachable_start : reachable s0 s0
  | reachable_step s s' : reachable s0 s -> step s s' -> reachable s0 s'.

(** The paths that [cache_file] can store: the name of the cache file is
    sixteen digits, an underscore and the name of the path, and [open]
    accepts it when it has no NUL and at most [NAME_MAX] bytes. *)
Definition storable (file_path : string) : bool :=
  negb (OS.has_nul (Path.name file_path)) &&
  (17 + OS.encoded_length (Path.name file_path) <=? OS.NAME_MAX)%nat.

Definition counter_covers_entries (s : state) : Prop :=
  wf s /\
  sizes_nonneg (metadata_cache s) /\
  total_size (metadata_cache s) <= current_cache_size s.

(** A small crowded cache: limit 5 and four entries of two bytes each,
    read at two times, so that each timestamp is shared by two entries. *)
Definition entry (path : string) (n t : Z) (loc : string) : string * FileMetadata :=
  (path, {| file_path := path; size := n; hash := "0000000000000000";
            access_count := 1; last_access := t; cache_location := Some loc |}).

Definition crowded : state :=
  {| small_file_threshold := 1024;
     cache_size_limit := 5;
     metadata_cache :=
       [entry "a.json" 2 7 "/cache/small-files/a";
        entry "b.json" 2 3 "/cache/small-files/b";
        entry "c.json" 2 7 "/cache/small-files/c";
        entry "d.json" 2 3 "/cache/small-files/d"];
     current_cache_size := 8;
     disk := list_to_map
       [("/cache/small-files/a", payload "aa"); ("/cache/small-files/b", payload "bb");
        ("/cache/small-files/c", payload "cc"); ("/cache/small-files/d", payload "dd")];
     stdout := [] |}.


(** A cache in which reads have happened: access counts 3, 1, 3, 2. *)
Definition read_cache : state :=
  with_metadata_cache
    [("a.json", touch 8 (touch 7 (snd (entry "a.json" 2 1 "/cache/small-files/a"))));
     entry "b.json" 2 2 "/cache/small-files/b";
     ("c.json", touch 9 (touch 6 (snd (entry "c.json" 2 3 "/cache/small-files/c"))));
     ("d.json", touch 5 (snd (entry "d.json" 2 4 "/cache/small-files/d")))]
    crowded.

(** Five files of 1024 bytes written at times 1 to 5 into a cache of
    threshold 1024 and limit 4096. *)
Definition kilobyte (c : byte) : bytes := List.repeat c 1024.

Definition after_four : state :=
  let s0 := fresh 1024 4096 in
  let s1 := snd (cache_file "run/e1.json" (kilobyte "1") 1 s0) in
  let s2 := snd (cache_file "run/e2.json" (kilobyte "2") 2 s1) in
  let s3 := snd (cache_file "run/e3.json" (kilobyte "3") 3 s2) in
  snd (cache_file "run/e4.json" (kilobyte "4") 4 s3).

Definition after_five : state :=
  snd (cache_file "run/e5.json" (kilobyte "5") 5 after_four).

(** A path read at each of the given times, one read after the other:
    the state they leave and what they return. *)
Fixpoint read_all (p : string) (times : list Z) (s : state) : state :=
  match times with
  | [] => s
  | t :: r => read_all p r (snd (get_cached_file p t s))
  end.

Fixpoint read_results (p : string) (times : list Z) (s : state) :
    list (outcome (option bytes)) :=
  match times with
  | [] => []
  | t :: r => fst (get_cached_file p t s) :: read_results p r (snd (get_cached_file p t s))
  end.

(** A string without a path separator. *)
Fixpoint no_slash (s : string) : bool :=
  match s with
  | EmptyString => true
  | String c r => negb (Ascii.eqb c "/") && no_slash r
  end.

(** The limits of which [low_water] is the comparison that the code makes:
    their product with [0.8] is a float that lies between the same two ints
    as four fifths of the limit. *)
Definition exact_limit (limit : Z) : Prop := Z.abs limit < 2 ^ 50.

(** A name that a file in a directory can have. *)
Definition cache_file_name (name : string) : bool :=
  no_slash name && negb (OS.has_nul name) &&
  (OS.encoded_length name <=? OS.NAME_MAX)%nat &&
  negb (String.eqb name "") && negb (String.eqb name ".") && negb (String.eqb name "..").

(** Every entry names a file directly in the cache directory, as the
    entries that [cache_file] writes do.  On such a path [exists], [unlink]
    and [open] do what the disk of the embedding says; on others they may
    raise (a name too long) or meet a directory. *)
Definition housed (s : state) : Prop :=
  Forall (fun kv => exists name,
            cache_location (snd kv) = Some (small_files_dir +:+ "/" +:+ name) /\
            cache_file_name name = true)
    (metadata_cache s).

(** Every entry other than that of [p] was last accessed before [t]. *)
Definition others_older (p : string) (t : Z) (d : list (string * FileMetadata)) : Prop :=
  forall q m, In (q, m) d -> q <> p -> last_access m < t.

(** The dataclass object that [asdict] was taken of. *)
Definition raw_of (m : FileMetadata) : raw_metadata :=
  {| raw_file_path := PStr (file_path m);
     raw_size := PInt (size m);
     raw_hash := PStr (hash m);
     raw_access_count := PInt (access_count m);
     raw_last_access := PFloat (last_access m);
     raw_cache_location :=
       match cache_location m with Some loc => PStr loc | None => PNone end |}.

(** A host whose cache is the crowded one, with no snapshot yet. *)
Definition crowded_host : host :=
  {| cache := crowded; metadata_file := None; monitor_out := [] |}.

(** * Properties *)

(** ** The digest agrees with the published test vectors *)

Example sha256_vectors :
  SHA256.hexdigest16 (payload "") = "e3b0c44298fc1c14" /\
  SHA256.hexdigest16 (payload "abc") = "ba7816bf8f01cfea" /\
  SHA256.hexdigest16 (List.repeat "a"%byte 56) = "b35439a4ac6f0948" /\
  SHA256.hexdigest16 (List.repeat "a"%byte 119) = "31eba51c313a5c08".
Proof. vm_compute. repeat split; reflexivity. Qed.

Example int_examples :
  PyInt.int " 12_3 " = Return 123 /\ PyInt.int "-7" = Return (-7) /\
  PyInt.int "1G" = Raise ValueError /\ PyInt.int "" = Raise ValueError /\
  PyInt.int "1__2" = Raise ValueError /\ PyInt.int "+ 1" = Raise ValueError.
Proof. vm_compute. repeat split; reflexivity. Qed.

Example path_examples :
  Path.name "a/b/c.json" = "c.json" /\ Path.name "a/b/" = "b" /\ Path.name "/" = "" /\
  Path.name "a/.." = ".." /\ Path.suffix "a/b.tar.GZ" = ".GZ" /\
  Path.suffix ".json" = "" /\ Path.suffix "x/foo." = "" /\ Path.suffix "a.b/c" = "".
Proof. vm_compute. repeat split; reflexivity. Qed.

(** ** Strings *)

Module StrFacts.

Lemma map_app f (s t : string) :
  Str.map f (s +:+ t) = Str.map f s +:+ Str.map f t.
Proof. induction s as [|c s IH]; simpl; [reflexivity | now rewrite IH]. Qed.

Lemma len_app (s t : string) : Str.len (s +:+ t) = (Str.len s + Str.len t)%nat.
Proof. induction s as [|c s IH]; simpl; [reflexivity | now rewrite <- IH]. Qed.

Lemma drop_app (s t : string) : Str.drop (Str.len s) (s +:+ t) = t.
Proof. induction s as [|c s IH]; simpl; [now destruct t | exact IH]. Qed.

Lemma take_app (s t : string) : Str.take (Str.len s) (s +:+ t) = s.
Proof. induction s as [|c s IH]; simpl; [now destruct t | now rewrite IH]. Qed.

Lemma endswith_app (s t : string) : Str.endswith (s +:+ t) t = true.
Proof.
  unfold Str.endswith. rewrite len_app.
  replace (Str.len s + Str.len t - Str.len t)%nat with (Str.len s) by lia.
  rewrite drop_app, String.eqb_refl, andb_true_r.
  apply Nat.leb_le. lia.
Qed.

Lemma drop_last_app (s t : string) : Str.drop_last (Str.len t) (s +:+ t) = s.
Proof.
  unfold Str.drop_last. rewrite len_app.
  replace (Str.len s + Str.len t - Str.len t)%nat with (Str.len s) by lia.
  apply take_app.
Qed.

Lemma app_cons (c : ascii) (s t : string) : String c s +:+ t = String c (s +:+ t).
Proof. reflexivity. Qed.

Lemma app_assoc (s t u : string) : (s +:+ t) +:+ u = s +:+ (t +:+ u).
Proof.
  induction s as [|c s IH]; [reflexivity |].
  now rewrite !app_cons, IH.
Qed.

Lemma take_drop (n : nat) (s : string) : Str.take n s +:+ Str.drop n s = s.
Proof.
  revert s. induction n as [|n IH]; intros s; [now destruct s |].
  destruct s as [|c s]; [reflexivity |].
  cbn [Str.take Str.drop]. now rewrite app_cons, IH.
Qed.

End StrFacts.

(** ** [int] refuses text that ends in a letter *)

Module PyIntFacts.
Import PyInt.

Lemma rstrip_junk (s : string) (c : ascii) :
  is_space c = false -> rstrip (s +:+ String c "") = s +:+ String c "".
Proof.
  intros Hc. induction s as [|a s IH]; simpl.
  - now rewrite Hc.
  - rewrite IH. now destruct s.
Qed.

Lemma lstrip_junk (s : string) (c : ascii) :
  is_space c = false -> exists t, lstrip (s +:+ String c "") = t +:+ String c "".
Proof.
  intros Hc. induction s as [|a s IH]; simpl.
  - rewrite Hc. now exists "".
  - destruct (is_space a); [exact IH | now exists (String a s)].
Qed.

Lemma digits_ok_junk (s : string) (c : ascii) (b : bool) :
  junk c -> digits_ok b (s +:+ String c "") = false.
Proof.
  intros (_ & Hd & Hu). revert b. induction s as [|a s IH]; intros b; simpl.
  - now rewrite Hd, Hu.
  - destruct (is_digit a); [apply IH |].
    destruct (Ascii.eqb a "_"); [| reflexivity].
    rewrite IH. apply andb_false_r.
Qed.

Lemma unsigned_junk (s : string) (c : ascii) :
  junk c -> unsigned (s +:+ String c "") = Raise ValueError.
Proof. intros H. unfold unsigned. now rewrite digits_ok_junk. Qed.

Lemma int_junk (s : string) (c : ascii) :
  junk c -> Ascii.eqb c "+" = false -> Ascii.eqb c "-" = false ->
  int (s +:+ String c "") = Raise ValueError.
Proof.
  intros H Hp Hm. pose proof H as (Hs & _).
  unfold int, strip. rewrite rstrip_junk by exact Hs.
  destruct (lstrip_junk s c Hs) as [t ->].
  destruct t as [|a t]; simpl.
  - rewrite Hp, Hm. apply (unsigned_junk "" c H).
  - destruct (Ascii.eqb a "+"); [apply unsigned_junk; exact H |].
    destruct (Ascii.eqb a "-").
    + now rewrite unsigned_junk.
    + apply (unsigned_junk (String a t) c H).
Qed.

Lemma digit_not_space c : is_digit c = true -> is_space c = false.
Proof.
  unfold is_digit, is_space. intros H.
  apply andb_true_iff in H as [H1 H2]. apply N.leb_le in H1, H2.
  apply orb_false_iff. split; apply andb_false_iff.
  - right. apply N.leb_gt. lia.
  - right. apply N.leb_gt. lia.
Qed.

Lemma digit_not_sign c :
  is_digit c = true -> Ascii.eqb c "+" = false /\ Ascii.eqb c "-" = false.
Proof.
  intros H. split.
  - destruct (Ascii.eqb_spec c "+") as [-> | _]; [discriminate | reflexivity].
  - destruct (Ascii.eqb_spec c "-") as [-> | _]; [discriminate | reflexivity].
Qed.

Lemma digit_upper c : is_digit c = true -> Str.upper_char c = c.
Proof.
  unfold is_digit, Str.upper_char, Str.is_lower. intros H.
  apply andb_true_iff in H as [H1 H2]. apply N.leb_le in H1, H2.
  destruct (N.leb_spec 97 (N_of_ascii c)) as [H3 | _]; [lia | reflexivity].
Qed.

Lemma all_digits_upper s : all_digits s = true -> Str.upper s = s.
Proof.
  unfold Str.upper. induction s as [|c s IH]; simpl; [reflexivity |].
  intros H. apply andb_true_iff in H as [Hc Hs].
  now rewrite digit_upper, IH.
Qed.

Lemma all_digits_app s t : all_digits (s +:+ t) = all_digits s && all_digits t.
Proof.
  induction s as [|c s IH]; [reflexivity |].
  rewrite StrFacts.app_cons. simpl. now rewrite IH, andb_assoc.
Qed.

Lemma all_digits_rstrip s : all_digits s = true -> rstrip s = s.
Proof.
  induction s as [|c s IH]; simpl; [reflexivity |].
  intros H. apply andb_true_iff in H as [Hc Hs].
  rewrite (IH Hs), (digit_not_space c Hc). now destruct s.
Qed.

Lemma all_digits_strip s : all_digits s = true -> strip s = s.
Proof.
  intros H. unfold strip. rewrite (all_digits_rstrip s H).
  destruct s as [|c s]; simpl in *; [reflexivity |].
  apply andb_true_iff in H as [Hc _]. now rewrite (digit_not_space c Hc).
Qed.

Lemma all_digits_ok s b :
  all_digits s = true -> digits_ok b s = match s with EmptyString => b | _ => true end.
Proof.
  revert b. induction s as [|c s IH]; intros b; simpl; [reflexivity |].
  intros H. apply andb_true_iff in H as [Hc Hs].
  rewrite Hc, (IH true Hs). now destruct s.
Qed.

Lemma all_digits_count s : all_digits s = true -> count_digits s = Str.len s.
Proof.
  induction s as [|c s IH]; simpl; [reflexivity |].
  intros H. apply andb_true_iff in H as [Hc Hs]. now rewrite Hc, (IH Hs).
Qed.

(** [int] reads a run of at most 4300 digits as its decimal value. *)
Lemma int_all_digits s :
  s <> "" -> all_digits s = true -> (Str.len s <= max_str_digits)%nat ->
  int s = Return (digits_value 0 s).
Proof.
  intros Hne Hd Hlen. unfold int. rewrite (all_digits_strip s Hd).
  destruct s as [|c s]; [contradiction |].
  pose proof Hd as Hd'. simpl in Hd'. apply andb_true_iff in Hd' as [Hc _].
  destruct (digit_not_sign c Hc) as [-> ->].
  unfold unsigned. rewrite (all_digits_ok _ false Hd), (all_digits_count _ Hd).
  now rewrite (proj2 (Nat.leb_le _ _) Hlen).
Qed.

End PyIntFacts.

(** ** C2: the size parser *)

(** Whatever precedes it, a suffix KB, MB or GB in any letter case makes
    [_parse_size] raise: the suffix B is tried first and matches, and the
    text left of it ends in a letter. *)
Lemma parse_size_two_letter_suffix (digits u : string) :
  In (Str.upper u) ["KB"; "MB"; "GB"] ->
  _parse_size (digits +:+ u) = Raise ValueError.
Proof.
  intros Hu. unfold _parse_size, Str.upper in *. rewrite StrFacts.map_app.
  set (d := Str.map Str.upper_char digits). clearbody d.
  assert (exists c, Str.map Str.upper_char u = String c "B" /\ PyInt.junk c /\
            Ascii.eqb c "+" = false /\ Ascii.eqb c "-" = false) as (c & -> & Hc & Hp & Hm).
  { simpl in Hu. destruct Hu as [<- | [<- | [<- | []]]]; eexists;
      (split; [reflexivity | repeat split; reflexivity]). }
  change (String c "B") with (String c "" +:+ "B").
  rewrite <- StrFacts.app_assoc. unfold multipliers. cbn [parse_size_loop].
  rewrite StrFacts.endswith_app.
  rewrite (StrFacts.drop_last_app (d +:+ String c "") "B").
  now rewrite PyIntFacts.int_junk.
Qed.

Lemma endswith_inv (s suffix : string) :
  Str.endswith s suffix = true -> exists x, s = x +:+ suffix.
Proof.
  unfold Str.endswith. intros H. apply andb_true_iff in H as [_ H].
  apply String.eqb_eq in H.
  exists (Str.take (Str.len s - Str.len suffix) s).
  rewrite <- H at 2. symmetry. apply StrFacts.take_drop.
Qed.

Lemma all_digits_no_suffix (s suffix : string) :
  PyInt.all_digits s = true -> PyInt.all_digits suffix = false ->
  Str.endswith s suffix = false.
Proof.
  intros Hs Hsuf. destruct (Str.endswith s suffix) eqn:He; [| reflexivity].
  apply endswith_inv in He as [x ->].
  rewrite PyIntFacts.all_digits_app, Hsuf, andb_false_r in Hs. discriminate.
Qed.

(** What does parse: a run of digits (at most 4300 of them), alone or
    followed by the letter B in either case, is read as its decimal value. *)
Lemma parse_size_bytes_and_plain (digits : string) (b : ascii) :
  digits <> "" ->
  PyInt.all_digits digits = true ->
  (Str.len digits <= PyInt.max_str_digits)%nat ->
  Str.upper_char b = "B"%char ->
  _parse_size digits = Return (PyInt.digits_value 0 digits) /\
  _parse_size (digits +:+ String b "") = Return (PyInt.digits_value 0 digits * 1).
Proof.
  intros Hne Hd Hlen Hb. unfold _parse_size. split.
  - rewrite (PyIntFacts.all_digits_upper _ Hd). unfold multipliers.
    cbn [parse_size_loop].
    rewrite !(all_digits_no_suffix digits) by (exact Hd || reflexivity).
    now apply PyIntFacts.int_all_digits.
  - unfold Str.upper. rewrite StrFacts.map_app.
    fold (Str.upper digits). rewrite (PyIntFacts.all_digits_upper _ Hd).
    cbn [Str.map]. rewrite Hb. unfold multipliers. cbn [parse_size_loop].
    rewrite StrFacts.endswith_app, (StrFacts.drop_last_app digits "B").
    now rewrite PyIntFacts.int_all_digits.
Qed.

Lemma parse_size_bytes_and_plain_witness :
  _parse_size "4096" = Return (PyInt.digits_value 0 "4096") /\
  _parse_size ("4096" +:+ "b") = Return (PyInt.digits_value 0 "4096" * 1).
Proof.
  apply (parse_size_bytes_and_plain "4096" "b").
  - discriminate.
  - reflexivity.
  - unfold PyInt.max_str_digits. simpl. lia.
  - reflexivity.
Defined.

(** C2 (code defect): [_parse_size] does not return [n * 1024^3] for the
    string [n] followed by GB, nor the KB and MB products: on ["1GB"], the
    default of CACHE_SIZE, on ["1KB"], ["1MB"] and their lower-case forms it
    raises ValueError, so constructing the cache with the default
    environment fails.  Only the suffix B and the plain integer work. *)
Theorem parse_size_unit_suffixes_raise :
  _parse_size "1GB" = Raise ValueError /\
  _parse_size "1MB" = Raise ValueError /\
  _parse_size "1KB" = Raise ValueError /\
  _parse_size "512mb" = Raise ValueError /\
  (forall fs, __init__ ∅ fs = Raise ValueError) /\
  _parse_size "1024B" = Return 1024 /\
  _parse_size "1073741824" = Return 1073741824 /\
  (forall digits u : string,
      In (Str.upper u) ["KB"; "MB"; "GB"] ->
      _parse_size (digits +:+ u) = Raise ValueError).
Proof.
  repeat split; try reflexivity.
  intros digits u. apply parse_size_two_letter_suffix.
Qed.

(** ** C7: the cacheability policy *)

(** C7: [should_cache] is false whenever the size exceeds the threshold,
    whatever the extension; at or below the threshold it is true exactly
    when the lower-cased suffix of the path is one of .json, .yaml, .yml,
    .csv, .txt, .pkl. *)
Theorem should_cache_policy (self : state) (path : string) (s : Z) :
  (small_file_threshold self < s -> should_cache self path s = false) /\
  (s <= small_file_threshold self ->
   (should_cache self path s = true <->
    In (Str.lower (Path.suffix path))
       [".json"; ".yaml"; ".yml"; ".csv"; ".txt"; ".pkl"])) /\
  (should_cache self path s = true <->
   s <= small_file_threshold self /\
   In (Str.lower (Path.suffix path))
      [".json"; ".yaml"; ".yml"; ".csv"; ".txt"; ".pkl"]).
Proof.
  assert (Hin : List.existsb (String.eqb (Str.lower (Path.suffix path)))
                  robotics_extensions = true <->
                In (Str.lower (Path.suffix path))
                   [".json"; ".yaml"; ".yml"; ".csv"; ".txt"; ".pkl"]).
  { rewrite List.existsb_exists. split.
    - intros (e & He & Heq). apply String.eqb_eq in Heq. now subst.
    - intros H. eexists. split; [exact H | apply String.eqb_refl]. }
  unfold should_cache. destruct (Z.gtb_spec s (small_file_threshold self)) as [Hgt | Hle].
  - split; [reflexivity |]. split; [intros H; lia |].
    split; [discriminate | intros [H _]; lia].
  - split; [intros H; lia |]. split; [intros _; exact Hin |].
    rewrite Hin. split; [now split | now intros [_ H]].
Qed.

Lemma should_cache_policy_witness :
  should_cache (fresh 1048576 1073741824) "poses/frame_0001.json" 1048577 = false /\
  should_cache (fresh 1048576 1073741824) "poses/frame_0001.JSON" 1048576 = true.
Proof.
  split.
  - apply (proj1 (should_cache_policy (fresh 1048576 1073741824)
                    "poses/frame_0001.json" 1048577)).
    reflexivity.
  - apply (proj2 (proj2 (should_cache_policy (fresh 1048576 1073741824)
                           "poses/frame_0001.JSON" 1048576))).
    split; [discriminate | vm_compute; left; reflexivity].
Defined.

Example should_cache_examples :
  let self := fresh 1048576 1073741824 in
  should_cache self "poses/frame_0001.JSON" 2048 = true /\
  should_cache self "poses/frame_0001.json" 1048577 = false /\
  should_cache self "video/stream.mp4" 2048 = false /\
  should_cache self "run.v2/config.Yaml" 10 = true /\
  should_cache self "notes/.txt" 10 = false /\
  should_cache self "archive.csv/" 10 = true /\
  should_cache self "README" 10 = false.
Proof. vm_compute. repeat split; reflexivity. Qed.

(** ** Dicts *)

Module DictFacts.
Section DictFacts.
Context {V : Type}.
Implicit Types (d : list (string * V)) (k : string) (v : V).

Lemma get_set_eq k v d : Dict.get k (Dict.set k v d) = Some v.
Proof.
  induction d as [|[k' v'] d IH]; simpl.
  - now rewrite String.eqb_refl.
  - destruct (String.eqb_spec k' k); simpl.
    + now rewrite String.eqb_refl.
    + destruct (String.eqb_spec k' k); [contradiction | exact IH].
Qed.

Lemma get_set_ne k k' v d : k <> k' -> Dict.get k' (Dict.set k v d) = Dict.get k' d.
Proof.
  intros Hne. induction d as [|[k0 v0] d IH]; simpl.
  - destruct (String.eqb_spec k k'); [contradiction | reflexivity].
  - destruct (String.eqb_spec k0 k) as [-> | Hk0]; simpl.
    + destruct (String.eqb_spec k k'); [contradiction | reflexivity].
    + destruct (String.eqb_spec k0 k'); [reflexivity | exact IH].
Qed.

Lemma get_del_eq k d : Dict.get k (Dict.del k d) = None.
Proof.
  induction d as [|[k' v'] d IH]; simpl; [reflexivity |].
  destruct (String.eqb_spec k' k); simpl; [exact IH |].
  destruct (String.eqb_spec k' k); [contradiction | exact IH].
Qed.

Lemma get_del_ne k k' d : k <> k' -> Dict.get k' (Dict.del k d) = Dict.get k' d.
Proof.
  intros Hne. induction d as [|[k0 v0] d IH]; simpl; [reflexivity |].
  destruct (String.eqb_spec k0 k) as [-> | Hk0]; simpl.
  - destruct (String.eqb_spec k k'); [contradiction | exact IH].
  - destruct (String.eqb_spec k0 k'); [reflexivity | exact IH].
Qed.

Lemma get_None k d : Dict.get k d = None <-> ~ In k (Dict.keys d).
Proof.
  induction d as [|[k' v'] d IH]; simpl; [tauto |].
  destruct (String.eqb_spec k' k); [| tauto].
  split; [discriminate | intros H; exfalso; apply H; now left].
Qed.

Lemma get_Some_In k v d : Dict.get k d = Some v -> In (k, v) d.
Proof.
  induction d as [|[k' v'] d IH]; simpl; [discriminate |].
  destruct (String.eqb_spec k' k) as [-> | _].
  - intros [= ->]. now left.
  - intros H. right. now apply IH.
Qed.

Lemma In_get k v d : List.NoDup (Dict.keys d) -> In (k, v) d -> Dict.get k d = Some v.
Proof.
  induction d as [|[k' v'] d IH]; simpl; [tauto |].
  intros Hnd [[= -> ->] | Hin].
  - now rewrite String.eqb_refl.
  - apply List.NoDup_cons_iff in Hnd as [Hk' Hnd].
    destruct (String.eqb_spec k' k) as [-> | _]; [| now apply IH].
    exfalso. apply Hk'. apply in_map_iff. now exists (k, v).
Qed.

Lemma contains_true k d : Dict.contains k d = true <-> In k (Dict.keys d).
Proof.
  unfold Dict.contains. pose proof (get_None k d) as H.
  destruct (Dict.get k d).
  - split; [intros _ | reflexivity].
    destruct (in_dec string_dec k (Dict.keys d)) as [Hin | Hin]; [exact Hin |].
    apply H in Hin. discriminate.
  - split; [discriminate | intros Hin; now apply H in Hin].
Qed.

Lemma In_del kv k d : In kv (Dict.del k d) <-> In kv d /\ fst kv <> k.
Proof.
  unfold Dict.del. rewrite filter_In.
  destruct (String.eqb_spec (fst kv) k); simpl; intuition congruence.
Qed.

Lemma keys_del k d :
  Dict.keys (Dict.del k d) =
  List.filter (fun k' => negb (String.eqb k' k)) (Dict.keys d).
Proof.
  induction d as [|[k' v'] d IH]; simpl; [reflexivity |].
  destruct (String.eqb k' k); simpl; now rewrite IH.
Qed.

Lemma In_keys_del k k' d :
  In k' (Dict.keys (Dict.del k d)) <-> In k' (Dict.keys d) /\ k' <> k.
Proof.
  rewrite keys_del, filter_In.
  destruct (String.eqb_spec k' k); simpl; intuition congruence.
Qed.

Lemma NoDup_del k d : List.NoDup (Dict.keys d) -> List.NoDup (Dict.keys (Dict.del k d)).
Proof. rewrite keys_del. apply List.NoDup_filter. Qed.

Lemma del_absent k d : ~ In k (Dict.keys d) -> Dict.del k d = d.
Proof.
  induction d as [|[k' v'] d IH]; simpl; [reflexivity |].
  intros H. destruct (String.eqb_spec k' k) as [-> | _]; simpl.
  - exfalso. apply H. now left.
  - rewrite IH; [reflexivity | tauto].
Qed.

Lemma In_set kv k v d : In kv (Dict.set k v d) -> kv = (k, v) \/ In kv d.
Proof.
  induction d as [|[k' v'] d IH]; simpl.
  - intros [<- | []]. now left.
  - destruct (String.eqb k' k); simpl; intuition.
Qed.

Lemma keys_set k v d :
  Dict.keys (Dict.set k v d) =
  if Dict.contains k d then Dict.keys d else Dict.keys d ++ [k].
Proof.
  unfold Dict.contains.
  induction d as [|[k' v'] d IH]; simpl; [reflexivity |].
  destruct (String.eqb_spec k' k) as [-> | _]; simpl; [reflexivity |].
  rewrite IH. now destruct (Dict.get k d).
Qed.

Lemma NoDup_set k v d : List.NoDup (Dict.keys d) -> List.NoDup (Dict.keys (Dict.set k v d)).
Proof.
  intros Hnd. rewrite keys_set.
  destruct (Dict.contains k d) eqn:Hc; [exact Hnd |].
  apply List.NoDup_app.
  - exact Hnd.
  - apply List.NoDup_cons; [intros [] | apply List.NoDup_nil].
  - intros x Hx [-> | []]. apply contains_true in Hx. congruence.
Qed.

Lemma Forall_set (P : string * V -> Prop) k v d :
  P (k, v) -> Forall P d -> Forall P (Dict.set k v d).
Proof.
  intros Hkv Hd. apply List.Forall_forall. intros x Hx.
  apply In_set in Hx as [-> | Hx]; [exact Hkv |].
  now apply (proj1 (List.Forall_forall P d) Hd).
Qed.

Lemma Forall_del (P : string * V -> Prop) k d :
  Forall P d -> Forall P (Dict.del k d).
Proof.
  intros Hd. apply List.Forall_forall. intros x Hx.
  apply In_del in Hx as [Hx _].
  now apply (proj1 (List.Forall_forall P d) Hd).
Qed.

End DictFacts.
End DictFacts.

(** ** [sorted] is a stable sort *)

Module SortFacts.
Section SortFacts.
Context {A : Type} (key : A -> Z).

Lemma insert_perm x l : Permutation (Sort.insert key x l) (x :: l).
Proof.
  induction l as [|y r IH]; simpl; [reflexivity |].
  destruct (key x <=? key y); [reflexivity |].
  rewrite IH. apply perm_swap.
Qed.

Lemma sorted_perm l : Permutation (Sort.sorted key l) l.
Proof.
  induction l as [|x l IH]; simpl; [reflexivity |].
  rewrite insert_perm. now apply perm_skip.
Qed.

Lemma insert_ascending x l :
  StronglySorted (Sort.ascending key) l -> StronglySorted (Sort.ascending key) (Sort.insert key x l).
Proof.
  induction 1 as [|y r Hr IH Hy]; simpl.
  - constructor; constructor.
  - destruct (Z.leb_spec (key x) (key y)) as [Hle | Hgt].
    + constructor; [now constructor |].
      constructor; [exact Hle |].
      eapply List.Forall_impl; [| exact Hy].
      unfold Sort.ascending. intros b Hb. lia.
    + constructor; [exact IH |].
      eapply Permutation_Forall; [symmetry; apply insert_perm |].
      constructor; [unfold Sort.ascending; lia | exact Hy].
Qed.

Lemma sorted_ascending l : StronglySorted (Sort.ascending key) (Sort.sorted key l).
Proof.
  induction l as [|x l IH]; simpl; [constructor | now apply insert_ascending].
Qed.

Lemma insert_stable t x l :
  Sort.with_key key t (Sort.insert key x l) = Sort.with_key key t (x :: l).
Proof.
  unfold Sort.with_key. induction l as [|y r IH]; simpl; [reflexivity |].
  destruct (Z.leb_spec (key x) (key y)) as [Hle | Hgt]; simpl; [reflexivity |].
  rewrite IH. simpl.
  destruct (Z.eqb_spec (key x) t) as [Hx | Hx]; [| reflexivity].
  destruct (Z.eqb_spec (key y) t) as [Hy | Hy]; [lia | reflexivity].
Qed.

Lemma sorted_stable t l : Sort.with_key key t (Sort.sorted key l) = Sort.with_key key t l.
Proof.
  induction l as [|x l IH]; simpl; [reflexivity |].
  rewrite insert_stable. unfold Sort.with_key in *. simpl. now rewrite IH.
Qed.



Lemma StronglySorted_snoc (R : A -> A -> Prop) l x :
  StronglySorted R l -> Forall (fun a => R a x) l -> StronglySorted R (l ++ [x]).
Proof.
  induction 1 as [|y r Hr IH Hy]; intros Hx; simpl.
  - constructor; constructor.
  - apply List.Forall_cons_iff in Hx as [Hyx Hx].
    constructor; [now apply IH |].
    apply List.Forall_app. split; [exact Hy | now constructor].
Qed.

Lemma StronglySorted_rev (R : A -> A -> Prop) l :
  StronglySorted R l -> StronglySorted (fun a b => R b a) (List.rev l).
Proof.
  induction 1 as [|y r Hr IH Hy]; simpl; [constructor |].
  apply StronglySorted_snoc; [exact IH |].
  apply List.Forall_rev. exact Hy.
Qed.

Lemma sorted_reverse_perm l : Permutation (Sort.sorted_reverse key l) l.
Proof.
  unfold Sort.sorted_reverse.
  rewrite <- Permutation_rev, sorted_perm. symmetry. apply Permutation_rev.
Qed.

Lemma sorted_reverse_descending l :
  StronglySorted (Sort.descending key) (Sort.sorted_reverse key l).
Proof.
  unfold Sort.sorted_reverse.
  apply (StronglySorted_rev (Sort.ascending key)). apply sorted_ascending.
Qed.

Lemma sorted_reverse_stable t l :
  Sort.with_key key t (Sort.sorted_reverse key l) = Sort.with_key key t l.
Proof.
  unfold Sort.sorted_reverse, Sort.with_key.
  rewrite List.filter_rev. fold (Sort.with_key key t (Sort.sorted key (List.rev l))).
  rewrite sorted_stable. unfold Sort.with_key.
  now rewrite List.filter_rev, List.rev_involutive.
Qed.

End SortFacts.
End SortFacts.

(** ** Eviction *)

Module EvictFacts.

Lemma evict_run (k : string) (m : FileMetadata) (loc : string) (s : state) :
  cache_location m = Some loc ->
  In k (Dict.keys (metadata_cache s)) ->
  evict k m s =
  (Return tt,
   {| small_file_threshold := small_file_threshold s;
      cache_size_limit := cache_size_limit s;
      metadata_cache := Dict.del k (metadata_cache s);
      current_cache_size :=
        match disk s !! loc with
        | Some _ => current_cache_size s - size m
        | None => current_cache_size s
        end;
      disk := delete loc (disk s);
      stdout := stdout s ++ [Evicted k] |}).
Proof.
  intros Hloc Hin. apply DictFacts.contains_true in Hin.
  unfold evict. rewrite Hloc.
  unfold bind, gets, modify, ret, raise, print. simpl.
  destruct (disk s !! loc) eqn:Hd; simpl; rewrite Hin; simpl.
  - reflexivity.
  - now rewrite (delete_id _ _ Hd).
Qed.

Lemma snapshot_ok_head k m r s :
  snapshot_ok ((k, m) :: r) s ->
  exists loc, cache_location m = Some loc /\ In k (Dict.keys (metadata_cache s)).
Proof.
  intros (_ & Hin & Hloc). apply List.Forall_cons_iff in Hloc as [Hm _].
  unfold has_location in Hm. simpl in Hm.
  destruct (cache_location m) as [loc|]; [| contradiction].
  exists loc. split; [reflexivity |]. apply Hin. now left.
Qed.

Lemma snapshot_ok_tail k m r s :
  snapshot_ok ((k, m) :: r) s -> snapshot_ok r (evicted s (k, m)).
Proof.
  intros H. destruct (snapshot_ok_head _ _ _ _ H) as (loc & Hloc & Hk).
  destruct H as (Hnd & Hin & Hl).
  simpl in Hnd. apply List.NoDup_cons_iff in Hnd as [Hkr Hnd].
  apply List.Forall_cons_iff in Hl as [_ Hl].
  repeat split; [exact Hnd | | exact Hl].
  intros k' Hk'. unfold evicted. simpl. rewrite (evict_run k m loc s Hloc Hk). simpl.
  apply DictFacts.In_keys_del. split; [apply Hin; now right |].
  intros ->. contradiction.
Qed.

Lemma In_firstn {A : Type} (x : A) (n : nat) (l : list A) :
  In x (List.firstn n l) -> In x l.
Proof.
  intros H. rewrite <- (List.firstn_skipn n l). apply List.in_or_app. now left.
Qed.

Lemma snapshot_ok_firstn n l s : snapshot_ok l s -> snapshot_ok (List.firstn n l) s.
Proof.
  intros (Hnd & Hin & Hl).
  assert (Hsub : forall k, In k (Dict.keys (List.firstn n l)) -> In k (Dict.keys l)).
  { intros k Hk. unfold Dict.keys in *. rewrite <- List.firstn_map in Hk.
    eapply In_firstn; exact Hk. }
  repeat split.
  - unfold Dict.keys in *. rewrite <- List.firstn_map.
    rewrite <- (List.firstn_skipn n (List.map fst l)) in Hnd.
    eapply List.NoDup_app_remove_r; exact Hnd.
  - intros k Hk. apply Hin, Hsub, Hk.
  - apply List.Forall_forall. intros x Hx.
    apply (proj1 (List.Forall_forall _ _) Hl). eapply In_firstn; exact Hx.
Qed.

Lemma evict_evicted k m r s :
  snapshot_ok ((k, m) :: r) s -> evict k m s = (Return tt, evicted s (k, m)).
Proof.
  intros H. destruct (snapshot_ok_head _ _ _ _ H) as (loc & Hloc & Hk).
  unfold evicted. simpl. now rewrite (evict_run k m loc s Hloc Hk).
Qed.

(** The loop evicts a prefix of the snapshot, the shortest one after which
    the counter is at or below the low-water mark, or all of it. *)
Lemma sweep_prefix (l : list (string * FileMetadata)) :
  forall s, snapshot_ok l s ->
  exists n, (n <= List.length l)%nat /\
    sweep l s = (Return tt, evicted_all (List.firstn n l) s) /\
    (forall j, (j < n)%nat -> low_water (evicted_all (List.firstn j l) s) = false) /\
    (n = List.length l \/ low_water (evicted_all (List.firstn n l) s) = true).
Proof.
  induction l as [|[k m] r IH]; intros s Hok.
  - exists O. simpl. repeat split; [lia | intros j Hj; lia | now left].
  - destruct (low_water s) eqn:Hlow.
    + exists O. simpl. unfold bind, gets, ret. rewrite Hlow.
      repeat split; [lia | intros j Hj; lia | now right].
    + destruct (IH _ (snapshot_ok_tail _ _ _ _ Hok)) as (n & Hn & Hrun & Hmin & Hend).
      exists (S n). cbn [sweep List.firstn List.length evicted_all List.fold_left].
      fold (evicted_all (List.firstn n r) (evicted s (k, m))).
      repeat split.
      * lia.
      * unfold bind at 1, gets at 1. rewrite Hlow.
        unfold bind at 1. now rewrite (evict_evicted _ _ _ _ Hok).
      * intros [|j] Hj; [exact Hlow |]. apply Hmin. lia.
      * destruct Hend as [-> | Hend]; [now left | now right].
Qed.

End EvictFacts.

Module SweepFacts.
Import EvictFacts.

Lemma without_nil d : without [] d = d.
Proof.
  induction d as [|kv d IH]; [reflexivity |].
  change (without [] (kv :: d)) with (kv :: without [] d). now rewrite IH.
Qed.

Lemma without_cons k ks d : without (k :: ks) d = without ks (Dict.del k d).
Proof.
  unfold without, Dict.del. induction d as [|kv d IH]; simpl in *; [reflexivity |].
  destruct (String.eqb (fst kv) k); simpl; rewrite IH; reflexivity.
Qed.

Lemma In_without kv ks d : In kv (without ks d) <-> In kv d /\ ~ In (fst kv) ks.
Proof.
  unfold without. rewrite filter_In, negb_true_iff.
  split; intros [Hin Hk]; (split; [exact Hin |]).
  - intros Hks. assert (List.existsb (String.eqb (fst kv)) ks = true); [| congruence].
    apply List.existsb_exists. exists (fst kv). split; [exact Hks | apply String.eqb_refl].
  - destruct (List.existsb (String.eqb (fst kv)) ks) eqn:He; [| reflexivity].
    apply List.existsb_exists in He as (k & Hk' & Heq).
    apply String.eqb_eq in Heq. subst k. contradiction.
Qed.

Lemma without_all ks d :
  (forall k, In k (Dict.keys d) -> In k ks) -> without ks d = [].
Proof.
  intros Hall. destruct (without ks d) as [|kv r] eqn:He; [reflexivity |].
  assert (Hin : In kv (without ks d)) by (rewrite He; now left).
  apply In_without in Hin as [Hin Hk]. exfalso. apply Hk, Hall.
  apply in_map_iff. now exists kv.
Qed.

Lemma get_without_in k ks d : In k ks -> Dict.get k (without ks d) = None.
Proof.
  intros Hk. apply DictFacts.get_None. intros Hin.
  apply in_map_iff in Hin as (kv & <- & Hin).
  apply In_without in Hin as [_ Hn]. contradiction.
Qed.

Lemma evicted_fields k m r s :
  snapshot_ok ((k, m) :: r) s ->
  exists loc, cache_location m = Some loc /\
    small_file_threshold (evicted s (k, m)) = small_file_threshold s /\
    cache_size_limit (evicted s (k, m)) = cache_size_limit s /\
    metadata_cache (evicted s (k, m)) = Dict.del k (metadata_cache s) /\
    current_cache_size (evicted s (k, m)) =
      match disk s !! loc with
      | Some _ => current_cache_size s - size m
      | None => current_cache_size s
      end /\
    disk (evicted s (k, m)) = delete loc (disk s) /\
    stdout (evicted s (k, m)) = stdout s ++ [Evicted k].
Proof.
  intros H. destruct (snapshot_ok_head _ _ _ _ H) as (loc & Hloc & Hk).
  exists loc. split; [exact Hloc |].
  unfold evicted. simpl. rewrite (evict_run k m loc s Hloc Hk). simpl.
  repeat split; reflexivity.
Qed.

(** What evicting every entry of a snapshot does to the state. *)
Lemma evicted_all_fields l :
  forall s, snapshot_ok l s ->
    small_file_threshold (evicted_all l s) = small_file_threshold s /\
    cache_size_limit (evicted_all l s) = cache_size_limit s /\
    metadata_cache (evicted_all l s) = without (Dict.keys l) (metadata_cache s) /\
    stdout (evicted_all l s) = stdout s ++ List.map Evicted (Dict.keys l).
Proof.
  induction l as [|[k m] r IH]; intros s Hok.
  - simpl. rewrite without_nil, List.app_nil_r. repeat split; reflexivity.
  - destruct (evicted_fields _ _ _ _ Hok) as (loc & _ & Ht & Hl & Hd & _ & _ & Ho).
    destruct (IH _ (snapshot_ok_tail _ _ _ _ Hok)) as (IHt & IHl & IHd & IHo).
    cbn [evicted_all List.fold_left]. fold (evicted_all r (evicted s (k, m))).
    rewrite IHt, IHl, IHd, IHo, Ht, Hl, Hd, Ho.
    simpl. rewrite without_cons, <- List.app_assoc. repeat split; reflexivity.
Qed.

(** Eviction only removes files, and the files of the evicted entries are
    gone. *)
Lemma evicted_all_disk l :
  forall s, snapshot_ok l s ->
    (forall p, disk s !! p = None -> disk (evicted_all l s) !! p = None) /\
    (forall kv loc, In kv l -> cache_location (snd kv) = Some loc ->
       disk (evicted_all l s) !! loc = None) /\
    (forall p, (forall kv, In kv l -> cache_location (snd kv) <> Some p) ->
       disk (evicted_all l s) !! p = disk s !! p).
Proof.
  induction l as [|[k m] r IH]; intros s Hok.
  - simpl. split; [| split]; [tauto | tauto | reflexivity].
  - destruct (evicted_fields _ _ _ _ Hok) as (loc & Hloc & _ & _ & _ & _ & Hfs & _).
    destruct (IH _ (snapshot_ok_tail _ _ _ _ Hok)) as (IHnone & IHgone & IHkeep).
    cbn [evicted_all List.fold_left]. fold (evicted_all r (evicted s (k, m))).
    assert (Hdel : forall p, disk s !! p = None -> disk (evicted s (k, m)) !! p = None).
    { intros p Hp. rewrite Hfs. destruct (decide (loc = p)) as [-> | Hne].
      - apply lookup_delete_eq.
      - now rewrite lookup_delete_ne. }
    split; [| split].
    + intros p Hp. apply IHnone, Hdel, Hp.
    + intros kv loc' [<- | Hin] Hloc'.
      * simpl in Hloc'. rewrite Hloc in Hloc'. injection Hloc' as <-.
        apply IHnone. rewrite Hfs. apply lookup_delete_eq.
      * eapply IHgone; eassumption.
    + intros p Hp. rewrite IHkeep.
      * rewrite Hfs. apply lookup_delete_ne. intros ->.
        apply (Hp (k, m)); [now left | exact Hloc].
      * intros kv Hin. apply Hp. now right.
Qed.

Lemma get_without_notin k ks d :
  ~ In k ks -> Dict.get k (without ks d) = Dict.get k d.
Proof.
  intros Hk. unfold without. induction d as [|[k' v'] d IH]; simpl; [reflexivity |].
  destruct (String.eqb_spec k' k) as [-> | Hne].
  - destruct (List.existsb (String.eqb k) ks) eqn:He; simpl.
    + apply List.existsb_exists in He as (x & Hx & Heq).
      apply String.eqb_eq in Heq. subst x. contradiction.
    + now rewrite String.eqb_refl.
  - destruct (List.existsb (String.eqb k') ks); simpl; [exact IH |].
    destruct (String.eqb_spec k' k); [contradiction | exact IH].
Qed.

(** A file is either untouched by the evictions or gone. *)
Lemma evicted_all_disk_cases l :
  forall s p, snapshot_ok l s ->
    disk (evicted_all l s) !! p = None \/
    disk (evicted_all l s) !! p = disk s !! p.
Proof.
  induction l as [|[k m] r IH]; intros s p Hok; [now right |].
  destruct (evicted_fields _ _ _ _ Hok) as (loc & _ & _ & _ & _ & _ & Hfs & _).
  cbn [evicted_all List.fold_left]. fold (evicted_all r (evicted s (k, m))).
  destruct (IH _ p (snapshot_ok_tail _ _ _ _ Hok)) as [Hnone | Hsame]; [now left |].
  rewrite Hsame, Hfs. destruct (decide (loc = p)) as [-> | Hne].
  - left. apply lookup_delete_eq.
  - right. now apply lookup_delete_ne.
Qed.

Lemma total_size_app l1 l2 : total_size (l1 ++ l2) = total_size l1 + total_size l2.
Proof. induction l1 as [|kv l1 IH]; simpl; [reflexivity | rewrite IH; lia]. Qed.

Lemma total_size_nonneg l : sizes_nonneg l -> 0 <= total_size l.
Proof.
  induction 1 as [|kv l Hkv _ IH]; simpl; [lia | lia].
Qed.

Lemma total_size_In kv l : sizes_nonneg l -> In kv l -> size (snd kv) <= total_size l.
Proof.
  induction 1 as [|x l Hx Hl IH]; simpl; [tauto |].
  pose proof (total_size_nonneg l Hl).
  intros [-> | Hin]; [lia | specialize (IH Hin); lia].
Qed.


Lemma evicted_all_counter l :
  forall s, snapshot_ok l s -> sizes_nonneg l ->
    current_cache_size s - total_size l <= current_cache_size (evicted_all l s)
    <= current_cache_size s.
Proof.
  induction l as [|[k m] r IH]; intros s Hok Hsz.
  - simpl. lia.
  - destruct (evicted_fields _ _ _ _ Hok) as (loc & _ & _ & _ & _ & Hc & _ & _).
    apply List.Forall_cons_iff in Hsz as [Hm Hr]. simpl in Hm.
    specialize (IH _ (snapshot_ok_tail _ _ _ _ Hok) Hr).
    cbn [evicted_all List.fold_left]. fold (evicted_all r (evicted s (k, m))).
    rewrite Hc in IH. simpl. destruct (disk s !! loc); lia.
Qed.

End SweepFacts.

(** ** Enforcement *)

Module EnforceFacts.
Import EvictFacts SweepFacts.

Lemma distinct_NoDup (l : list string) : distinct l = true -> List.NoDup l.
Proof.
  induction l as [|k r IH]; simpl; [constructor |].
  intros H. apply andb_true_iff in H as [Hk Hr].
  constructor; [| now apply IH].
  intros Hin. apply negb_true_iff in Hk.
  assert (List.existsb (String.eqb k) r = true); [| congruence].
  apply List.existsb_exists. exists k. split; [exact Hin | apply String.eqb_refl].
Qed.

Lemma wf_dec_wf (s : state) : wf_dec s = true -> wf s.
Proof.
  unfold wf_dec, wf. intros H. apply andb_true_iff in H as [Hd Hl].
  split; [now apply distinct_NoDup |].
  apply List.Forall_forall. intros kv Hkv.
  apply (proj1 (List.forallb_forall _ _) Hl) in Hkv.
  unfold has_location. now destruct (cache_location (snd kv)).
Qed.

Lemma sorted_files_ok (s : state) : wf s -> snapshot_ok (sorted_files s) s.
Proof.
  intros [Hnd Hl].
  pose proof (SortFacts.sorted_perm by_last_access (metadata_cache s)) as Hp.
  fold (sorted_files s) in Hp.
  split; [| split].
  - eapply Permutation_NoDup; [| exact Hnd].
    apply Permutation_map. now symmetry.
  - intros k Hk. eapply Permutation_in; [| exact Hk]. now apply Permutation_map.
  - eapply Permutation_Forall; [| exact Hl]. now symmetry.
Qed.

Lemma enforce_below (s : state) :
  current_cache_size s <= cache_size_limit s ->
  _enforce_cache_limits s = (Return tt, s).
Proof.
  intros H. unfold _enforce_cache_limits, bind, gets, ret. simpl.
  now rewrite (proj2 (Z.leb_le _ _) H).
Qed.

Lemma enforce_above (s : state) :
  cache_size_limit s < current_cache_size s ->
  _enforce_cache_limits s = sweep (sorted_files s) s.
Proof.
  intros H. unfold _enforce_cache_limits, bind, gets, ret. simpl.
  now rewrite (proj2 (Z.leb_gt _ _) H).
Qed.

(** Enforcement never raises on a well-formed state: it evicts a prefix of
    the sorted snapshot, empty when the counter is within the limit, and
    otherwise the shortest prefix that reaches the low-water mark. *)
Lemma enforce_run (s : state) :
  wf s ->
  exists n, (n <= List.length (sorted_files s))%nat /\
    _enforce_cache_limits s = (Return tt, evicted_all (List.firstn n (sorted_files s)) s) /\
    (current_cache_size s <= cache_size_limit s -> n = O) /\
    (forall j, (j < n)%nat ->
       low_water (evicted_all (List.firstn j (sorted_files s)) s) = false) /\
    (cache_size_limit s < current_cache_size s ->
       n = List.length (sorted_files s) \/
       low_water (evicted_all (List.firstn n (sorted_files s)) s) = true).
Proof.
  intros Hwf. destruct (Z.le_gt_cases (current_cache_size s) (cache_size_limit s)) as [Hle | Hgt].
  - exists O. rewrite enforce_below by exact Hle. simpl.
    repeat split; [lia | intros j Hj; lia | intros Hgt; lia].
  - destruct (sweep_prefix _ _ (sorted_files_ok s Hwf)) as (n & Hn & Hrun & Hmin & Hend).
    exists n. rewrite enforce_above by exact Hgt.
    repeat split; [exact Hn | exact Hrun | intros Hle; lia | exact Hmin | intros _; exact Hend].
Qed.

Lemma evicted_all_everything (s : state) :
  wf s -> metadata_cache (evicted_all (sorted_files s) s) = [].
Proof.
  intros Hwf. pose proof (sorted_files_ok s Hwf) as Hok.
  destruct (evicted_all_fields _ _ Hok) as (_ & _ & -> & _).
  apply without_all. intros k Hk.
  eapply Permutation_in; [| exact Hk].
  apply Permutation_map. symmetry. apply SortFacts.sorted_perm.
Qed.

End EnforceFacts.

(** ** Enforcement on the crowded cache *)

Example crowded_enforced :
  let s' := snd (_enforce_cache_limits crowded) in
  Dict.keys (metadata_cache s') = ["a.json"; "c.json"] /\
  current_cache_size s' = 4 /\
  stdout s' = [Evicted "b.json"; Evicted "d.json"].
Proof. vm_compute. repeat split; reflexivity. Qed.

(** ** C5: the eviction order *)



(** On the crowded cache the loop evicts the two entries of time 3, in the
    order of the index, and stops there: the counter is 8, then 6, then 4,
    and the mark is 4. *)
Example crowded_victims :
  _enforce_cache_limits crowded =
    (Return tt, evicted_all (List.firstn 2 (sorted_files crowded)) crowded) /\
  Dict.keys (List.firstn 2 (sorted_files crowded)) = ["b.json"; "d.json"] /\
  List.map (fun j => current_cache_size
                       (evicted_all (List.firstn j (sorted_files crowded)) crowded))
    [0; 1; 2]%nat = [8; 6; 4].
Proof. vm_compute. repeat split; reflexivity. Qed.

Example crowded_sorted :
  Dict.keys (sorted_files crowded) = ["b.json"; "d.json"; "a.json"; "c.json"].
Proof. reflexivity. Qed.

(** ** The names that [open] accepts *)

Module NameFacts.

Lemma has_nul_app (a b : string) : OS.has_nul (a +:+ b) = OS.has_nul a || OS.has_nul b.
Proof.
  induction a as [|c a IH]; [reflexivity |].
  rewrite StrFacts.app_cons. simpl. now rewrite IH, orb_assoc.
Qed.

Lemma encoded_length_app (a b : string) :
  OS.encoded_length (a +:+ b) = (OS.encoded_length a + OS.encoded_length b)%nat.
Proof.
  induction a as [|c a IH]; [reflexivity |].
  rewrite StrFacts.app_cons. simpl. rewrite IH. lia.
Qed.

Lemma hex_digit_plain (n : Z) :
  Ascii.eqb (SHA256.hex_digit (n mod 16)) "000" = false /\
  (N_of_ascii (SHA256.hex_digit (n mod 16)) <? 128)%N = true.
Proof.
  pose proof (Z.mod_pos_bound n 16 ltac:(lia)) as H.
  assert (Hcases : n mod 16 = 0 \/ n mod 16 = 1 \/ n mod 16 = 2 \/ n mod 16 = 3 \/
                   n mod 16 = 4 \/ n mod 16 = 5 \/ n mod 16 = 6 \/ n mod 16 = 7 \/
                   n mod 16 = 8 \/ n mod 16 = 9 \/ n mod 16 = 10 \/ n mod 16 = 11 \/
                   n mod 16 = 12 \/ n mod 16 = 13 \/ n mod 16 = 14 \/ n mod 16 = 15) by lia.
  repeat (destruct Hcases as [-> | Hcases]; [now split |]).
  rewrite Hcases. now split.
Qed.

Lemma hex_plain (k : nat) :
  forall n acc,
    OS.has_nul (SHA256.hex k n acc) = OS.has_nul acc /\
    OS.encoded_length (SHA256.hex k n acc) = (k + OS.encoded_length acc)%nat.
Proof.
  induction k as [|k IH]; intros n acc; [now split |].
  cbn [SHA256.hex].
  destruct (IH (n / 16) (String (SHA256.hex_digit (n mod 16)) acc)) as [Hn Hl].
  destruct (hex_digit_plain n) as [Hz Ha].
  rewrite Hn, Hl. cbn [OS.has_nul OS.encoded_length]. rewrite Hz, Ha.
  split; [reflexivity | lia].
Qed.

Lemma hexdigest16_plain (b : bytes) :
  OS.has_nul (SHA256.hexdigest16 b) = false /\
  OS.encoded_length (SHA256.hexdigest16 b) = 16%nat.
Proof.
  unfold SHA256.hexdigest16.
  destruct (hex_plain 8 (SHA256.ra (SHA256.digest b))
              (SHA256.hex 8 (SHA256.rb (SHA256.digest b)) "")) as [Hn Hl].
  destruct (hex_plain 8 (SHA256.rb (SHA256.digest b)) "") as [Hn' Hl'].
  rewrite Hn, Hl, Hn', Hl'. now split.
Qed.

(** What [open] says of a cache file depends on the name of the logical
    path alone. *)
Lemma open_storable (p : string) (b : bytes) :
  OS.open_wb (SHA256.hexdigest16 b +:+ "_" +:+ Path.name p) =
  if OS.has_nul (Path.name p) then Some ValueError
  else if storable p then None else Some OSError.
Proof.
  destruct (hexdigest16_plain b) as [Hn Hl].
  unfold OS.open_wb, storable.
  rewrite !has_nul_app, !encoded_length_app, Hn, Hl.
  cbn [OS.has_nul OS.encoded_length orb]. 
  destruct (OS.has_nul (Path.name p)); [reflexivity |].
  cbn [negb andb].
  change (Ascii.eqb "_" "000") with false. cbn [orb].
  change (N_of_ascii "_" <? 128)%N with true. cbv iota.
  destruct (Nat.leb_spec (17 + OS.encoded_length (Path.name p)) OS.NAME_MAX);
    destruct (Nat.ltb_spec OS.NAME_MAX (16 + (1 + 0 + OS.encoded_length (Path.name p))));
    try reflexivity; lia.
Qed.

End NameFacts.

(** ** Writing to the cache *)

Module CacheFacts.
Import EvictFacts SweepFacts EnforceFacts.

(** A path that cannot be stored: the call raises and changes nothing. *)
Lemma cache_file_refused path b now s :
  storable path = false ->
  exists e, cache_file path b now s = (Raise e, s) /\ (e = ValueError \/ e = OSError).
Proof.
  intros H. unfold cache_file. rewrite NameFacts.open_storable, H.
  destruct (OS.has_nul (Path.name path)); eexists; (split; [reflexivity |]); auto.
Qed.

Lemma cache_file_unfold path b now s :
  storable path = true ->
  cache_file path b now s =
  match _enforce_cache_limits (inserted path b now s) with
  | (Return _, s') =>
      (Return (cache_path_of path b),
       with_stdout (stdout s' ++ [Cached path (cache_path_of path b)]) s')
  | (Raise e, s') => (Raise e, s')
  end.
Proof.
  intros H. unfold cache_file. rewrite NameFacts.open_storable, H.
  assert (Hnul : OS.has_nul (Path.name path) = false).
  { unfold storable in H. now destruct (OS.has_nul (Path.name path)). }
  rewrite Hnul.
  unfold bind, modify, print, ret.
  fold (cache_path_of path b).
  change (with_current_cache_size _ (with_metadata_cache _ (with_disk _ s)))
    with (inserted path b now s).
  now destruct (_enforce_cache_limits (inserted path b now s)) as [[[] | e] s'].
Qed.

Lemma inserted_wf path b now s : wf s -> wf (inserted path b now s).
Proof.
  intros [Hnd Hl]. split; simpl.
  - now apply DictFacts.NoDup_set.
  - apply DictFacts.Forall_set; [discriminate | exact Hl].
Qed.

(** Without eviction: the counter stays within the limit. *)
Lemma cache_file_within_limit path b now s :
  storable path = true ->
  current_cache_size s + Z.of_nat (List.length b) <= cache_size_limit s ->
  cache_file path b now s =
  (Return (cache_path_of path b),
   with_stdout (stdout s ++ [Cached path (cache_path_of path b)]) (inserted path b now s)).
Proof.
  intros Hp H. rewrite cache_file_unfold, enforce_below by assumption. reflexivity.
Qed.

(** On a well-formed state [cache_file] returns the cache path, after
    evicting a prefix of the sorted snapshot of the index with the new
    entry in it. *)
Lemma cache_file_run path b now s :
  storable path = true ->
  wf s ->
  let s0 := inserted path b now s in
  exists n, (n <= List.length (sorted_files s0))%nat /\
    let s' := evicted_all (List.firstn n (sorted_files s0)) s0 in
    cache_file path b now s =
      (Return (cache_path_of path b),
       with_stdout (stdout s' ++ [Cached path (cache_path_of path b)]) s') /\
    (cache_size_limit s0 < current_cache_size s0 ->
       n = List.length (sorted_files s0) \/ low_water s' = true).
Proof.
  intros Hp Hwf s0.
  destruct (enforce_run s0 (inserted_wf path b now s Hwf)) as (n & Hn & Hrun & _ & _ & Hend).
  exists n. split; [exact Hn |]. cbv zeta. split; [| exact Hend].
  rewrite cache_file_unfold by exact Hp. fold s0. now rewrite Hrun.
Qed.

Lemma total_size_perm l l' : Permutation l l' -> total_size l = total_size l'.
Proof. induction 1; simpl; lia. Qed.

Lemma total_size_set k m d :
  sizes_nonneg d -> total_size (Dict.set k m d) <= total_size d + size m.
Proof.
  induction 1 as [|[k' m'] d Hm' Hd IH]; simpl in *; [lia |].
  destruct (String.eqb k' k); simpl; lia.
Qed.

Lemma sizes_nonneg_set k m d :
  0 <= size m -> sizes_nonneg d -> sizes_nonneg (Dict.set k m d).
Proof. intros Hm Hd. now apply DictFacts.Forall_set. Qed.

Lemma get_cached_file_miss path now s :
  Dict.get path (metadata_cache s) = None ->
  get_cached_file path now s = (Return None, s).
Proof.
  intros H. unfold get_cached_file, bind, gets, ret. simpl. now rewrite H.
Qed.

Lemma get_cached_file_stale path now s m loc :
  Dict.get path (metadata_cache s) = Some m ->
  cache_location m = Some loc ->
  disk s !! loc = None ->
  get_cached_file path now s =
  (Return None, with_metadata_cache (Dict.del path (metadata_cache s)) s).
Proof.
  intros Hm Hloc Hfs. unfold get_cached_file, bind, gets, modify, ret. simpl.
  now rewrite Hm, Hloc, Hfs.
Qed.

Lemma get_cached_file_hit path now s m loc data :
  Dict.get path (metadata_cache s) = Some m ->
  cache_location m = Some loc ->
  disk s !! loc = Some data ->
  get_cached_file path now s =
  (Return (Some data),
   with_stdout (stdout s ++ [CacheHit path])
     (with_metadata_cache (Dict.set path (touch now m) (metadata_cache s)) s)).
Proof.
  intros Hm Hloc Hfs. unfold get_cached_file, bind, gets, modify, print, ret. simpl.
  now rewrite Hm, Hloc, Hfs.
Qed.

End CacheFacts.

(** ** C6: the round trip *)

(** C6 as stated fails: with a limit of 10 bytes, an 11-byte JSON payload
    is cacheable, [cache_file] stores and at once evicts it, and the read
    that follows misses.  It fails as well for a cacheable path whose name
    [open] refuses, here one with a NUL character: [cache_file] raises
    ValueError, nothing is stored, and the read that follows misses. *)
Lemma round_trip_fails_when_evicted :
  (let s := fresh 1048576 10 in
   let b := payload "hello world" in
   should_cache s "a.json" (Z.of_nat (List.length b)) = true /\
   fst (cache_file "a.json" b 1 s) = Return "/cache/small-files/b94d27b9934d3e08_a.json" /\
   fst (get_cached_file "a.json" 2 (snd (cache_file "a.json" b 1 s))) = Return None) /\
  (let s := fresh 1048576 4096 in
   let p := String "a" (String "000" ".json") in
   let b := payload "x" in
   should_cache s p (Z.of_nat (List.length b)) = true /\
   cache_file p b 1 s = (Raise ValueError, s) /\
   fst (get_cached_file p 2 (snd (cache_file p b 1 s))) = Return None).
Proof. vm_compute. repeat split; reflexivity. Qed.

(** C6, amended: in a well-formed cache, for a payload and a path with
    [should_cache] true whose name [open] accepts (no NUL, a cache file
    name of at most 255 bytes), [cache_file(p, b)] returns and the
    [get_cached_file(p)] that follows returns exactly [b], unless the
    enforcement run by that [cache_file] has removed the entry of [p] or
    deleted its cache file, in which case it returns [None]; it returns [b]
    whenever the write keeps the counter within the limit
    ([current_cache_size + len(b) <= cache_size_limit]).  The entries of
    the cache name files of the cache directory, and the limit is one that
    [low_water] compares exactly. *)
Theorem cache_round_trip (s : state) (p : string) (b : bytes) (now now' : Z) :
  should_cache s p (Z.of_nat (List.length b)) = true ->
  storable p = true ->
  exact_limit (cache_size_limit s) ->
  wf s ->
  housed s ->
  exists loc s1,
    cache_file p b now s = (Return loc, s1) /\
    (current_cache_size s + Z.of_nat (List.length b) <= cache_size_limit s ->
     fst (get_cached_file p now' s1) = Return (Some b)) /\
    (Dict.get p (metadata_cache s1) <> None -> disk s1 !! loc <> None ->
     fst (get_cached_file p now' s1) = Return (Some b)) /\
    (Dict.get p (metadata_cache s1) = None \/ disk s1 !! loc = None ->
     fst (get_cached_file p now' s1) = Return None).
Proof.
  intros _ Hp _ Hwf _.
  destruct (CacheFacts.cache_file_run p b now s Hp Hwf) as (n & _ & Hrun & _).
  cbv zeta in Hrun.
  set (s0 := inserted p b now s) in *. set (l := sorted_files s0) in *.
  set (s' := evicted_all (List.firstn n l) s0) in *.
  pose proof (CacheFacts.inserted_wf p b now s Hwf) as Hwf0. fold s0 in Hwf0.
  pose proof (EvictFacts.snapshot_ok_firstn n _ _ (EnforceFacts.sorted_files_ok s0 Hwf0)) as Hok.
  fold l in Hok.
  destruct (SweepFacts.evicted_all_fields _ _ Hok) as (_ & _ & Hidx & _). fold s' in Hidx.
  pose proof (SweepFacts.evicted_all_disk_cases _ s0 (cache_path_of p b) Hok) as Hfs.
  fold s' in Hfs.
  assert (Hfs0 : disk s0 !! cache_path_of p b = Some b) by apply lookup_insert_eq.
  assert (Hget0 : Dict.get p (metadata_cache s0) = Some (new_metadata p b now))
    by apply DictFacts.get_set_eq.
  assert (Hentry : Dict.get p (metadata_cache s') = None \/
                   Dict.get p (metadata_cache s') = Some (new_metadata p b now)).
  { rewrite Hidx.
    destruct (in_dec string_dec p (Dict.keys (List.firstn n l))) as [Hin | Hout].
    - left. now apply SweepFacts.get_without_in.
    - right. now rewrite SweepFacts.get_without_notin. }
  assert (Hhit : Dict.get p (metadata_cache s') <> None ->
                 disk s' !! cache_path_of p b <> None ->
                 fst (get_cached_file p now'
                        (with_stdout (stdout s' ++ [Cached p (cache_path_of p b)]) s')) =
                 Return (Some b)).
  { intros He Hf. destruct Hentry as [He' | He']; [contradiction |].
    destruct Hfs as [Hf' | Hf']; [contradiction |]. rewrite Hfs0 in Hf'.
    erewrite CacheFacts.get_cached_file_hit; [reflexivity | exact He' | reflexivity | exact Hf']. }
  exists (cache_path_of p b). eexists. split; [exact Hrun |].
  split; [| split; [exact Hhit |]].
  - intros Hfit.
    rewrite (CacheFacts.cache_file_within_limit p b now s Hp Hfit) in Hrun.
    apply (f_equal snd) in Hrun. cbn [snd] in Hrun. fold s0 in Hrun.
    assert (Hm : metadata_cache s0 = metadata_cache s')
      by exact (f_equal metadata_cache Hrun).
    assert (Hd : disk s0 = disk s') by exact (f_equal disk Hrun).
    apply Hhit.
    + rewrite <- Hm, Hget0. discriminate.
    + rewrite <- Hd, Hfs0. discriminate.
  - intros [He | Hf].
    + now rewrite CacheFacts.get_cached_file_miss.
    + destruct Hentry as [He' | He'].
      * now rewrite CacheFacts.get_cached_file_miss.
      * erewrite CacheFacts.get_cached_file_stale; [reflexivity | exact He' | reflexivity | exact Hf].
Qed.

Lemma cache_round_trip_witness :
  exists loc s1,
    cache_file "pose/frame.json" (payload "{}") 1 (fresh 1048576 4096) = (Return loc, s1) /\
    (current_cache_size (fresh 1048576 4096) + Z.of_nat (List.length (payload "{}"))
       <= cache_size_limit (fresh 1048576 4096) ->
     fst (get_cached_file "pose/frame.json" 2 s1) = Return (Some (payload "{}"))) /\
    (Dict.get "pose/frame.json" (metadata_cache s1) <> None -> disk s1 !! loc <> None ->
     fst (get_cached_file "pose/frame.json" 2 s1) = Return (Some (payload "{}"))) /\
    (Dict.get "pose/frame.json" (metadata_cache s1) = None \/ disk s1 !! loc = None ->
     fst (get_cached_file "pose/frame.json" 2 s1) = Return None).
Proof.
  apply cache_round_trip;
    [reflexivity | reflexivity | reflexivity | apply EnforceFacts.wf_dec_wf; reflexivity
    | apply List.Forall_nil].
Defined.

Example round_trip_within_limit :
  let s1 := snd (cache_file "pose/frame.json" (payload "{}") 1 (fresh 1048576 4096)) in
  fst (get_cached_file "pose/frame.json" 2 s1) = Return (Some (payload "{}")).
Proof. vm_compute. reflexivity. Qed.

(** ** C10: an entry evicted by its own insertion *)

(** C10: when the payload is larger than [cache_size_limit * 0.8] and the
    insertion takes the counter above the limit, [cache_file] evicts the
    entry it has just inserted, its file is gone from the disk, the cache
    path is returned all the same, and [get_cached_file] then returns
    [None].  This holds for every path whose name [open] accepts, in every
    well-formed state whose entries name files of the cache directory and
    whose counter is not below the sum of its (non-negative) entry sizes,
    with a limit that [low_water] compares exactly. *)
Theorem cache_file_evicts_own_entry (s : state) (p : string) (b : bytes) (now now' : Z) :
  storable p = true ->
  exact_limit (cache_size_limit s) ->
  wf s ->
  housed s ->
  sizes_nonneg (metadata_cache s) ->
  total_size (metadata_cache s) <= current_cache_size s ->
  cache_size_limit s < current_cache_size s + Z.of_nat (List.length b) ->
  4 * cache_size_limit s < 5 * Z.of_nat (List.length b) ->
  exists s1,
    cache_file p b now s = (Return (cache_path_of p b), s1) /\
    In (Evicted p) (stdout s1) /\
    Dict.get p (metadata_cache s1) = None /\
    disk s1 !! cache_path_of p b = None /\
    get_cached_file p now' s1 = (Return None, s1).
Proof.
  intros Hp _ Hwf _ Hsz Hsum Hover Hbig.
  destruct (CacheFacts.cache_file_run p b now s Hp Hwf) as (n & Hn & Hrun & Hend).
  set (s0 := inserted p b now s) in *. set (l := sorted_files s0) in *.
  cbv zeta in Hrun, Hend. set (s' := evicted_all (List.firstn n l) s0) in *.
  pose proof (CacheFacts.inserted_wf p b now s Hwf) as Hwf0. fold s0 in Hwf0.
  pose proof (EnforceFacts.sorted_files_ok s0 Hwf0) as Hok. fold l in Hok.
  pose proof (EvictFacts.snapshot_ok_firstn n _ _ Hok) as Hokn.
  pose proof (SortFacts.sorted_perm by_last_access (metadata_cache s0)) as Hperm.
  fold (sorted_files s0) in Hperm. fold l in Hperm.
  set (m := new_metadata p b now).
  assert (Hin : In (p, m) l).
  { eapply Permutation_in; [symmetry; exact Hperm |].
    apply DictFacts.get_Some_In. simpl. apply DictFacts.get_set_eq. }
  assert (Hsz0 : sizes_nonneg (metadata_cache s0)).
  { apply CacheFacts.sizes_nonneg_set; [simpl; lia | exact Hsz]. }
  assert (Hszl : sizes_nonneg l).
  { eapply Permutation_Forall; [symmetry; exact Hperm | exact Hsz0]. }
  assert (Hvictim : In (p, m) (List.firstn n l)).
  { rewrite <- (List.firstn_skipn n l) in Hin, Hszl.
    apply List.in_app_or in Hin as [Hin | Hin]; [exact Hin | exfalso].
    apply List.Forall_app in Hszl as [Hsz1 Hsz2].
    assert (Hlow : low_water s' = true).
    { assert (Habove : cache_size_limit s0 < current_cache_size s0) by exact Hover.
      destruct (Hend Habove) as [-> | H]; [| exact H].
      rewrite List.skipn_all in Hin. destruct Hin. }
    unfold low_water in Hlow. apply Z.leb_le in Hlow.
    destruct (SweepFacts.evicted_all_fields _ _ Hokn) as (_ & Hlim & _ & _).
    fold s' in Hlim. rewrite Hlim in Hlow.
    pose proof (SweepFacts.evicted_all_counter _ _ Hokn Hsz1) as [Hc _]. fold s' in Hc.
    pose proof (SweepFacts.total_size_In _ _ Hsz2 Hin) as Hm. simpl in Hm.
    pose proof (CacheFacts.total_size_set p m _ Hsz) as Hset.
    pose proof (CacheFacts.total_size_perm _ _ Hperm) as Htot.
    rewrite <- (List.firstn_skipn n l), SweepFacts.total_size_app in Htot.
    unfold m in Hset. simpl in Hc, Hlow, Hset, Htot. lia. }
  destruct (SweepFacts.evicted_all_fields _ _ Hokn) as (_ & _ & Hidx & Hout).
  destruct (SweepFacts.evicted_all_disk _ _ Hokn) as (_ & Hgone & _).
  fold s' in Hidx, Hout, Hgone.
  assert (Hkey : In p (Dict.keys (List.firstn n l))).
  { apply in_map_iff. now exists (p, m). }
  eexists. split; [exact Hrun |]. split; [| split; [| split]].
  - simpl. rewrite Hout. apply List.in_or_app. left. apply List.in_or_app. right.
    now apply List.in_map.
  - simpl. rewrite Hidx. now apply SweepFacts.get_without_in.
  - simpl. now apply (Hgone (p, m)).
  - apply CacheFacts.get_cached_file_miss. simpl.
    rewrite Hidx. now apply SweepFacts.get_without_in.
Qed.

Lemma cache_file_evicts_own_entry_witness :
  exists s1,
    cache_file "a.json" (payload "hello world") 1 (fresh 1048576 10) =
      (Return (cache_path_of "a.json" (payload "hello world")), s1) /\
    In (Evicted "a.json") (stdout s1) /\
    Dict.get "a.json" (metadata_cache s1) = None /\
    disk s1 !! cache_path_of "a.json" (payload "hello world") = None /\
    get_cached_file "a.json" 2 s1 = (Return None, s1).
Proof.
  apply cache_file_evicts_own_entry.
  - reflexivity.
  - reflexivity.
  - apply EnforceFacts.wf_dec_wf. reflexivity.
  - apply List.Forall_nil.
  - constructor.
  - vm_compute. discriminate.
  - vm_compute. reflexivity.
  - vm_compute. reflexivity.
Defined.

(** ** C4: self-heal on a missing backing file *)



(** ** C1: the running counter and the sum of the entry sizes *)

(** C1 (code defect): the counter leaves the sum of the entry sizes behind.
    Writing the same path twice keeps one entry of one byte and counts two;
    a read that heals an entry whose file was deleted removes the entry and
    leaves the counter where it was. *)
Theorem counter_drifts_from_sum :
  (let s0 := fresh 1048576 1073741824 in
   let s1 := snd (cache_file "a.json" (payload "x") 1 s0) in
   let s2 := snd (cache_file "a.json" (payload "x") 2 s1) in
   Dict.keys (metadata_cache s2) = ["a.json"] /\
   total_size (metadata_cache s2) = 1 /\
   current_cache_size s2 = 2) /\
  (let s0 := fresh 1048576 1073741824 in
   let s1 := snd (cache_file "a.json" (payload "x") 1 s0) in
   let gone := with_disk (delete "/cache/small-files/2d711642b726b044_a.json" (disk s1)) s1 in
   let s2 := snd (get_cached_file "a.json" 2 gone) in
   total_size (metadata_cache s1) = 1 /\
   current_cache_size s1 = 1 /\
   fst (get_cached_file "a.json" 2 gone) = Return None /\
   metadata_cache s2 = [] /\
   total_size (metadata_cache s2) = 0 /\
   current_cache_size s2 = 1).
Proof. vm_compute. repeat split; reflexivity. Qed.

(** ** C8: the statistics *)

(** C8 as stated fails: there is no size in bytes in the result, and the
    size that is reported follows the counter, not the entries.  After the
    same 5242-byte file was written twice the index holds one entry, whose
    size rounds to 0.00 MB, and the statistics report 0.01 MB, the counter
    being 10484.  With a limit of zero there is no result at all. *)
Lemma stats_report_the_counter :
  (let b := List.repeat "x"%byte (Z.to_nat 5242) in
   let s0 := fresh 1048576 1073741824 in
   let s2 := snd (cache_file "a.json" b 2 (snd (cache_file "a.json" b 1 s0))) in
   total_size (metadata_cache s2) = 5242 /\
   mb_hundredths (total_size (metadata_cache s2)) = 0 /\
   current_cache_size s2 = 10484 /\
   fst (get_cache_stats s2) =
     Return {| total_cached_files := 1;
               current_cache_size_mb := 1;
               cache_limit_mb := 102400;
               most_accessed_files := [("a.json", 1)] |}) /\
  fst (get_cache_stats (fresh 1048576 0)) = Raise ZeroDivisionError.
Proof. vm_compute. repeat split; reflexivity. Qed.

Module StatsFacts.

(** Quotients of ints below 2^53 in absolute value are floats. *)
Lemma small_quotient (a b : Z) :
  Z.abs a < 2 ^ 53 -> b <> 0 -> too_large a b = false.
Proof.
  intros Ha Hb. unfold too_large. apply Z.leb_gt.
  assert (Hc : 2 ^ 53 <= 2 ^ 1024 - 2 ^ 970) by (vm_compute; discriminate).
  set (c := 2 ^ 1024 - 2 ^ 970) in *. set (e := 2 ^ 53) in *. nia.
Qed.

Lemma small_stats (s : state) :
  Z.abs (current_cache_size s) < 2 ^ 53 ->
  Z.abs (cache_size_limit s) < 2 ^ 53 ->
  early_overflow s = false /\
  (cache_size_limit s <> 0 -> stats_overflow s = false).
Proof.
  intros Hc Hl.
  assert (He : early_overflow s = false).
  { unfold early_overflow. cbv zeta.
    rewrite (small_quotient (current_cache_size s) 1024 Hc) by discriminate.
    rewrite (small_quotient (cache_size_limit s) 1024 Hl) by discriminate.
    destruct (Z.ltb_spec 0 (Z.of_nat (List.length (metadata_cache s)))) as [H | H];
      [| reflexivity].
    rewrite (small_quotient _ _ Hc) by lia. reflexivity. }
  split; [exact He |]. intros Hz. unfold stats_overflow.
  now rewrite He, (small_quotient _ _ Hc Hz).
Qed.

(** What [get_cache_stats] returns when no quotient overflows. *)
Lemma stats_run (s : state) :
  cache_size_limit s <> 0 ->
  stats_overflow s = false ->
  get_cache_stats s =
  (Return {| total_cached_files := Z.of_nat (List.length (metadata_cache s));
             current_cache_size_mb := mb_hundredths (current_cache_size s);
             cache_limit_mb := mb_hundredths (cache_size_limit s);
             most_accessed_files :=
               List.map (fun kv => (fst kv, access_count (snd kv)))
                 (List.firstn 5 (Sort.sorted_reverse by_access_count (metadata_cache s))) |},
   s).
Proof.
  intros Hz Hf. unfold stats_overflow in Hf. apply orb_false_iff in Hf as [He Hq].
  unfold get_cache_stats, bind, gets, ret, raise. simpl. rewrite He, Hq.
  destruct (Z.eqb_spec (cache_size_limit s) 0); [contradiction | reflexivity].
Qed.

(** [round_half_even num den] is the integer nearest to [num / den], the
    even one of the two when [num / den] lies half way. *)
Lemma round_half_even_nearest (num den : Z) :
  0 < den ->
  2 * Z.abs (num - den * round_half_even num den) <= den /\
  (2 * Z.abs (num - den * round_half_even num den) = den ->
   Z.even (round_half_even num den) = true).
Proof.
  intros Hden. unfold round_half_even. cbv zeta.
  pose proof (Z.div_mod num den ltac:(lia)) as Hdm.
  pose proof (Z.mod_pos_bound num den Hden) as Hr.
  set (q := num / den) in *. set (r := num mod den) in *.
  destruct (Z.ltb_spec (2 * r) den) as [H1 | H1]; [split; lia |].
  destruct (Z.ltb_spec den (2 * r)) as [H2 | H2]; [split; lia |].
  destruct (Z.even q) eqn:Hq; [split; [lia | intros _; exact Hq] |].
  split; [lia |]. intros _. rewrite Z.even_add, Hq. reflexivity.
Qed.

End StatsFacts.

(** C8, amended: when [cache_size_limit] is not zero, and the counter and
    the limit are below 2^53 in absolute value (where their quotients by
    1024 are exact floats), [get_cache_stats] returns and changes nothing;
    [total_cached_files] is the number of index entries; the size it
    reports, [current_cache_size_mb], is the running counter
    [current_cache_size] in megabytes rounded to two decimals, to the
    nearest hundredth and to the even one half way between two; and
    [most_accessed_files] holds the first five entries of the index ranked
    by [access_count], largest first, entries with equal counts in the order
    of the index (insertion order). *)
Theorem stats_view (s : state) :
  cache_size_limit s <> 0 ->
  Z.abs (current_cache_size s) < 2 ^ 53 ->
  Z.abs (cache_size_limit s) < 2 ^ 53 ->
  exists st ranked,
    get_cache_stats s = (Return st, s) /\
    total_cached_files st = Z.of_nat (List.length (metadata_cache s)) /\
    current_cache_size_mb st = mb_hundredths (current_cache_size s) /\
    2 * Z.abs (100 * current_cache_size s - 1048576 * current_cache_size_mb st)
      <= 1048576 /\
    (2 * Z.abs (100 * current_cache_size s - 1048576 * current_cache_size_mb st)
       = 1048576 -> Z.even (current_cache_size_mb st) = true) /\
    most_accessed_files st =
      List.map (fun kv => (fst kv, access_count (snd kv))) (List.firstn 5 ranked) /\
    Permutation ranked (metadata_cache s) /\
    StronglySorted (Sort.descending by_access_count) ranked /\
    (forall c, Sort.with_key by_access_count c ranked =
               Sort.with_key by_access_count c (metadata_cache s)).
Proof.
  intros Hlimit Hc Hl.
  destruct (StatsFacts.small_stats s Hc Hl) as [_ Hf].
  eexists. exists (Sort.sorted_reverse by_access_count (metadata_cache s)).
  split; [apply StatsFacts.stats_run; [exact Hlimit | exact (Hf Hlimit)] |].
  cbn [total_cached_files current_cache_size_mb most_accessed_files].
  destruct (StatsFacts.round_half_even_nearest (current_cache_size s * 100) 1048576
              ltac:(lia)) as [Hnear Htie].
  fold (mb_hundredths (current_cache_size s)) in Hnear, Htie.
  replace (100 * current_cache_size s) with (current_cache_size s * 100) by lia.
  split; [reflexivity |]. split; [reflexivity |].
  split; [exact Hnear |]. split; [exact Htie |]. split; [reflexivity |].
  split; [apply SortFacts.sorted_reverse_perm |].
  split; [apply SortFacts.sorted_reverse_descending |].
  intros c. apply SortFacts.sorted_reverse_stable.
Qed.

Lemma stats_view_witness :
  exists st ranked,
    get_cache_stats read_cache = (Return st, read_cache) /\
    total_cached_files st = Z.of_nat (List.length (metadata_cache read_cache)) /\
    current_cache_size_mb st = mb_hundredths (current_cache_size read_cache) /\
    2 * Z.abs (100 * current_cache_size read_cache - 1048576 * current_cache_size_mb st)
      <= 1048576 /\
    (2 * Z.abs (100 * current_cache_size read_cache - 1048576 * current_cache_size_mb st)
       = 1048576 -> Z.even (current_cache_size_mb st) = true) /\
    most_accessed_files st =
      List.map (fun kv => (fst kv, access_count (snd kv))) (List.firstn 5 ranked) /\
    Permutation ranked (metadata_cache read_cache) /\
    StronglySorted (Sort.descending by_access_count) ranked /\
    (forall c, Sort.with_key by_access_count c ranked =
               Sort.with_key by_access_count c (metadata_cache read_cache)).
Proof.
  apply stats_view.
  - vm_compute. discriminate.
  - reflexivity.
  - reflexivity.
Defined.

Example read_cache_stats :
  fst (get_cache_stats read_cache) =
  Return {| total_cached_files := 4;
            current_cache_size_mb := 0;
            cache_limit_mb := 0;
            most_accessed_files :=
              [("a.json", 3); ("c.json", 3); ("d.json", 2); ("b.json", 1)] |}.
Proof. reflexivity. Qed.

(** ** C9: one cache file behind two logical paths *)

Module ShareFacts.
Import EvictFacts SweepFacts EnforceFacts CacheFacts.

Lemma get_Some_key {V : Type} (k : string) (v : V) (d : list (string * V)) :
  Dict.get k d = Some v -> In k (Dict.keys d).
Proof.
  intros H. destruct (in_dec string_dec k (Dict.keys d)) as [Hin | Hin]; [exact Hin |].
  apply DictFacts.get_None in Hin. congruence.
Qed.

Lemma cache_path_of_name p1 p2 b :
  Path.name p1 = Path.name p2 -> cache_path_of p1 b = cache_path_of p2 b.
Proof. intros H. unfold cache_path_of. now rewrite H. Qed.

Lemma cache_file_returns path b now s :
  storable path = true ->
  wf s -> fst (cache_file path b now s) = Return (cache_path_of path b).
Proof.
  intros Hp Hwf. destruct (cache_file_run path b now s Hp Hwf) as (n & _ & Hrun & _).
  cbv zeta in Hrun. now rewrite Hrun.
Qed.

Lemma storable_name p1 p2 : Path.name p1 = Path.name p2 -> storable p1 = storable p2.
Proof. intros H. unfold storable. now rewrite H. Qed.

(** Evicting an entry whose file another entry shares leaves that entry in
    the index without its file: the next read of it misses. *)
Lemma evict_shared (s : state) (victim other : string) (mv mo : FileMetadata)
    (loc : string) (now : Z) :
  victim <> other ->
  Dict.get victim (metadata_cache s) = Some mv ->
  Dict.get other (metadata_cache s) = Some mo ->
  cache_location mv = Some loc ->
  cache_location mo = Some loc ->
  exists s',
    evict victim mv s = (Return tt, s') /\
    Dict.get victim (metadata_cache s') = None /\
    Dict.get other (metadata_cache s') = Some mo /\
    disk s' !! loc = None /\
    fst (get_cached_file other now s') = Return None.
Proof.
  intros Hne Hv Ho Hlv Hlo.
  eexists. split; [apply (evict_run victim mv loc s Hlv (get_Some_key _ _ _ Hv)) |].
  simpl. split; [apply DictFacts.get_del_eq |].
  assert (Hother : Dict.get other (Dict.del victim (metadata_cache s)) = Some mo).
  { rewrite DictFacts.get_del_ne by exact Hne. exact Ho. }
  split; [exact Hother |].
  split; [apply lookup_delete_eq |].
  erewrite get_cached_file_stale; [reflexivity | exact Hother | exact Hlo |].
  simpl. apply lookup_delete_eq.
Qed.

End ShareFacts.

(** C9 as stated fails for a name that [open] refuses.  Two distinct paths
    with the same name, one with a NUL character in it: each call raises
    ValueError, returns no location and leaves the cache as it was, so that
    no entry and no file is shared. *)
Lemma refused_name_has_no_location :
  let s := fresh 1048576 4096 in
  let p1 := "run1/po" +:+ String "000" "se.json" in
  let p2 := "run2/po" +:+ String "000" "se.json" in
  let b := payload "{}" in
  p1 <> p2 /\
  Path.name p1 = Path.name p2 /\
  cache_file p1 b 1 s = (Raise ValueError, s) /\
  cache_file p2 b 2 s = (Raise ValueError, s).
Proof. vm_compute. repeat split; try reflexivity. discriminate. Qed.

(** C9, amended: the cache path returned by [cache_file] depends on the payload and
    on the name (last component) of the logical path only.  For two
    distinct paths with the same name, one that [open] accepts, and one
    payload, both calls return the same path, both entries point at it, one
    file holds the bytes, and evicting either entry deletes that file: the
    other entry stays in the index and its next read misses.  (The two
    writes are taken within the limit, so that neither triggers an eviction
    by itself; in any two well-formed caches whose entries name files of
    the cache directory, with limits that [low_water] compares exactly, the
    two calls return the same path as well.) *)
Theorem shared_cache_location (s : state) (p1 p2 : string) (b : bytes) (t1 t2 t3 : Z) :
  p1 <> p2 ->
  Path.name p1 = Path.name p2 ->
  storable p1 = true ->
  current_cache_size s + 2 * Z.of_nat (List.length b) <= cache_size_limit s ->
  let loc := cache_path_of p1 b in
  cache_path_of p2 b = loc /\
  (forall sa sb ta tb,
     wf sa -> housed sa -> exact_limit (cache_size_limit sa) ->
     wf sb -> housed sb -> exact_limit (cache_size_limit sb) ->
     fst (cache_file p1 b ta sa) = Return loc /\
     fst (cache_file p2 b tb sb) = Return loc) /\
  exists s1 s2 m1 m2,
    cache_file p1 b t1 s = (Return loc, s1) /\
    cache_file p2 b t2 s1 = (Return loc, s2) /\
    Dict.get p1 (metadata_cache s2) = Some m1 /\ cache_location m1 = Some loc /\
    Dict.get p2 (metadata_cache s2) = Some m2 /\ cache_location m2 = Some loc /\
    disk s2 !! loc = Some b /\
    (exists s3,
       evict p1 m1 s2 = (Return tt, s3) /\
       Dict.get p1 (metadata_cache s3) = None /\
       Dict.get p2 (metadata_cache s3) = Some m2 /\
       disk s3 !! loc = None /\
       fst (get_cached_file p2 t3 s3) = Return None) /\
    (exists s3,
       evict p2 m2 s2 = (Return tt, s3) /\
       Dict.get p2 (metadata_cache s3) = None /\
       Dict.get p1 (metadata_cache s3) = Some m1 /\
       disk s3 !! loc = None /\
       fst (get_cached_file p1 t3 s3) = Return None).
Proof.
  intros Hne Hname Hp1 Hfit loc.
  assert (Hp2 : storable p2 = true).
  { now rewrite <- (ShareFacts.storable_name p1 p2 Hname). }
  assert (Hloc : cache_path_of p2 b = loc).
  { symmetry. now apply ShareFacts.cache_path_of_name. }
  split; [exact Hloc |]. split.
  { intros sa sb ta tb Ha _ _ Hb _ _. rewrite <- Hloc at 2.
    split; now apply ShareFacts.cache_file_returns. }
  set (s1 := with_stdout (stdout s ++ [Cached p1 loc]) (inserted p1 b t1 s)).
  set (s2 := with_stdout (stdout s1 ++ [Cached p2 loc]) (inserted p2 b t2 s1)).
  set (m1 := new_metadata p1 b t1). set (m2 := new_metadata p2 b t2).
  assert (H1 : Dict.get p1 (metadata_cache s2) = Some m1).
  { simpl. rewrite DictFacts.get_set_ne by congruence. apply DictFacts.get_set_eq. }
  assert (H2 : Dict.get p2 (metadata_cache s2) = Some m2).
  { simpl. apply DictFacts.get_set_eq. }
  assert (Hl1 : cache_location m1 = Some loc) by reflexivity.
  assert (Hl2 : cache_location m2 = Some loc) by (simpl; now rewrite Hloc).
  exists s1, s2, m1, m2.
  split; [apply CacheFacts.cache_file_within_limit; [exact Hp1 | lia] |].
  split.
  { rewrite CacheFacts.cache_file_within_limit by (exact Hp2 || (simpl; lia)).
    unfold s2. now rewrite Hloc. }
  split; [exact H1 |]. split; [exact Hl1 |].
  split; [exact H2 |]. split; [exact Hl2 |].
  split; [simpl; rewrite Hloc; apply lookup_insert_eq |].
  split.
  - apply ShareFacts.evict_shared; assumption || congruence.
  - apply ShareFacts.evict_shared; assumption || congruence.
Qed.

Lemma shared_cache_location_witness :
  let s := fresh 1048576 4096 in
  let p1 := "run1/pose.json" in
  let p2 := "run2/pose.json" in
  let b := payload "{}" in
  let loc := cache_path_of p1 b in
  cache_path_of p2 b = loc /\
  (forall sa sb ta tb,
     wf sa -> housed sa -> exact_limit (cache_size_limit sa) ->
     wf sb -> housed sb -> exact_limit (cache_size_limit sb) ->
     fst (cache_file p1 b ta sa) = Return loc /\
     fst (cache_file p2 b tb sb) = Return loc) /\
  exists s1 s2 m1 m2,
    cache_file p1 b 1 s = (Return loc, s1) /\
    cache_file p2 b 2 s1 = (Return loc, s2) /\
    Dict.get p1 (metadata_cache s2) = Some m1 /\ cache_location m1 = Some loc /\
    Dict.get p2 (metadata_cache s2) = Some m2 /\ cache_location m2 = Some loc /\
    disk s2 !! loc = Some b /\
    (exists s3,
       evict p1 m1 s2 = (Return tt, s3) /\
       Dict.get p1 (metadata_cache s3) = None /\
       Dict.get p2 (metadata_cache s3) = Some m2 /\
       disk s3 !! loc = None /\
       fst (get_cached_file p2 3 s3) = Return None) /\
    (exists s3,
       evict p2 m2 s2 = (Return tt, s3) /\
       Dict.get p2 (metadata_cache s3) = None /\
       Dict.get p1 (metadata_cache s3) = Some m1 /\
       disk s3 !! loc = None /\
       fst (get_cached_file p1 3 s3) = Return None).
Proof.
  apply (shared_cache_location (fresh 1048576 4096) "run1/pose.json" "run2/pose.json"
           (payload "{}") 1 2 3).
  - discriminate.
  - reflexivity.
  - reflexivity.
  - vm_compute. discriminate.
Defined.

Example shared_file_lost :
  let s1 := snd (cache_file "run1/pose.json" (payload "{}") 1 (fresh 1048576 5)) in
  let s2 := snd (cache_file "run2/pose.json" (payload "{}") 2 s1) in
  let s3 := snd (cache_file "run3/grip.json" (payload "[]") 3 s2) in
  Dict.keys (metadata_cache s2) = ["run1/pose.json"; "run2/pose.json"] /\
  List.map fst (map_to_list (disk s2)) = ["/cache/small-files/44136fa355b3678a_pose.json"] /\
  Dict.keys (metadata_cache s3) = ["run2/pose.json"; "run3/grip.json"] /\
  List.map fst (map_to_list (disk s3)) = ["/cache/small-files/4f53cda18c2baa0c_grip.json"] /\
  fst (get_cached_file "run2/pose.json" 4 s3) = Return None.
Proof. vm_compute. repeat split; reflexivity. Qed.

(** ** The counter never falls below the sum of the entry sizes *)

Module InvariantFacts.
Import EvictFacts SweepFacts EnforceFacts CacheFacts.

Lemma total_size_del k m d :
  List.NoDup (Dict.keys d) -> In (k, m) d ->
  total_size (Dict.del k d) = total_size d - size m.
Proof.
  induction d as [|[k' m'] d IH]; simpl; [tauto |].
  intros Hnd Hin. apply List.NoDup_cons_iff in Hnd as [Hk' Hnd].
  destruct (String.eqb_spec k' k) as [-> | Hne]; simpl.
  - fold (Dict.del k d). rewrite DictFacts.del_absent by exact Hk'.
    destruct Hin as [[= ->] | Hin]; [lia |].
    exfalso. apply Hk'. apply in_map_iff. now exists (k, m).
  - fold (Dict.del k d). destruct Hin as [[= -> ->] | Hin]; [contradiction |].
    rewrite IH by assumption. lia.
Qed.

Lemma total_size_del_le k d :
  sizes_nonneg d -> total_size (Dict.del k d) <= total_size d.
Proof.
  induction 1 as [|[k' m'] d Hm Hd IH]; simpl in *; [lia |].
  destruct (String.eqb k' k); simpl; fold (Dict.del k d); lia.
Qed.

Lemma total_size_touch k m now d :
  Dict.get k d = Some m -> total_size (Dict.set k (touch now m) d) = total_size d.
Proof.
  induction d as [|[k' m'] d IH]; simpl; [discriminate |].
  destruct (String.eqb k' k); simpl.
  - now intros [= ->].
  - intros H. now rewrite IH.
Qed.

Lemma evicted_covers k m r s :
  snapshot_ok ((k, m) :: r) s ->
  In (k, m) (metadata_cache s) ->
  counter_covers_entries s ->
  counter_covers_entries (evicted s (k, m)).
Proof.
  intros Hok Hin ((Hnd & Hloc) & Hsz & Hsum).
  destruct (evicted_fields _ _ _ _ Hok) as (loc & _ & _ & _ & Hd & Hc & _ & _).
  pose proof (proj1 (List.Forall_forall _ _) Hsz _ Hin) as Hm. simpl in Hm.
  unfold counter_covers_entries, wf. rewrite Hd, Hc.
  rewrite (total_size_del k m _ Hnd Hin).
  repeat split.
  - now apply DictFacts.NoDup_del.
  - now apply DictFacts.Forall_del.
  - now apply DictFacts.Forall_del.
  - destruct (disk s !! loc); lia.
Qed.

Lemma evicted_all_covers l :
  forall s, snapshot_ok l s ->
    (forall kv, In kv l -> In kv (metadata_cache s)) ->
    counter_covers_entries s ->
    counter_covers_entries (evicted_all l s).
Proof.
  induction l as [|[k m] r IH]; intros s Hok Hsub Hcov; [exact Hcov |].
  cbn [evicted_all List.fold_left]. fold (evicted_all r (evicted s (k, m))).
  apply IH.
  - now apply snapshot_ok_tail.
  - intros kv Hkv.
    destruct (evicted_fields _ _ _ _ Hok) as (loc & _ & _ & _ & -> & _).
    apply DictFacts.In_del. split; [apply Hsub; now right |].
    destruct Hok as (Hnd & _). simpl in Hnd.
    apply List.NoDup_cons_iff in Hnd as [Hk _].
    intros <-. apply Hk. now apply List.in_map.
  - apply evicted_covers with r; [exact Hok | apply Hsub; now left | exact Hcov].
Qed.

Lemma enforce_covers s :
  counter_covers_entries s ->
  counter_covers_entries (snd (_enforce_cache_limits s)).
Proof.
  intros Hcov. pose proof Hcov as (Hwf & _).
  destruct (enforce_run s Hwf) as (n & _ & -> & _). simpl.
  apply evicted_all_covers.
  - apply snapshot_ok_firstn. now apply sorted_files_ok.
  - intros kv Hkv. apply In_firstn in Hkv.
    eapply Permutation_in; [apply SortFacts.sorted_perm | exact Hkv].
  - exact Hcov.
Qed.

Lemma inserted_covers p b now s :
  counter_covers_entries s -> counter_covers_entries (inserted p b now s).
Proof.
  intros (Hwf & Hsz & Hsum). split; [now apply inserted_wf |]. simpl. split.
  - apply sizes_nonneg_set; [simpl; lia | exact Hsz].
  - pose proof (total_size_set p (new_metadata p b now) _ Hsz) as H. simpl in H. lia.
Qed.

Lemma cache_file_covers p b now s :
  counter_covers_entries s -> counter_covers_entries (snd (cache_file p b now s)).
Proof.
  intros Hcov. destruct (storable p) eqn:Hp.
  - apply (inserted_covers p b now) in Hcov. apply enforce_covers in Hcov.
    rewrite cache_file_unfold by exact Hp.
    now destruct (_enforce_cache_limits (inserted p b now s)) as [[[] | e] s'].
  - destruct (cache_file_refused p b now s Hp) as (e & -> & _). exact Hcov.
Qed.

Lemma get_cached_file_covers p now s :
  counter_covers_entries s -> counter_covers_entries (snd (get_cached_file p now s)).
Proof.
  intros Hcov. pose proof Hcov as ((Hnd & Hloc) & Hsz & Hsum).
  destruct (Dict.get p (metadata_cache s)) as [m|] eqn:Hm.
  - pose proof (DictFacts.get_Some_In _ _ _ Hm) as Hin.
    pose proof (proj1 (List.Forall_forall _ _) Hloc _ Hin) as Hl.
    pose proof (proj1 (List.Forall_forall _ _) Hsz _ Hin) as Hs.
    unfold has_location in Hl. simpl in Hl, Hs.
    destruct (cache_location m) as [loc|] eqn:Hlm; [| contradiction].
    destruct (disk s !! loc) as [data|] eqn:Hfs.
    + rewrite (get_cached_file_hit _ _ _ _ _ _ Hm Hlm Hfs). simpl.
      repeat split; simpl.
      * now apply DictFacts.NoDup_set.
      * apply DictFacts.Forall_set; [| exact Hloc].
        unfold has_location. simpl. now rewrite Hlm.
      * apply sizes_nonneg_set; [exact Hs | exact Hsz].
      * now rewrite (total_size_touch _ _ _ _ Hm).
    + rewrite (get_cached_file_stale _ _ _ _ _ Hm Hlm Hfs). simpl.
      repeat split; simpl.
      * now apply DictFacts.NoDup_del.
      * now apply DictFacts.Forall_del.
      * now apply DictFacts.Forall_del.
      * pose proof (total_size_del_le p _ Hsz). lia.
  - now rewrite (get_cached_file_miss _ _ _ Hm).
Qed.

Lemma step_covers s s' :
  step s s' -> counter_covers_entries s -> counter_covers_entries s'.
Proof.
  intros [s0 p b now | s0 p now | s0 | s0 loc] Hcov.
  - now apply cache_file_covers.
  - now apply get_cached_file_covers.
  - now apply enforce_covers.
  - exact Hcov.
Qed.

(** A cache constructed with no snapshot on disk starts with an empty
    index and its counter at zero, whatever files the disk holds. *)
Lemma constructed_empty (env : gmap string string) (fs : gmap string bytes) (s0 : state) :
  AIStor env fs None = Started s0 ->
  metadata_cache s0 = [] /\ current_cache_size s0 = 0 /\ disk s0 = fs.
Proof.
  unfold AIStor, _initialize_cache, banner.
  destruct (PyInt.int (getenv env "SMALL_FILE_THRESHOLD" "1048576")) as [t | e];
    [| discriminate].
  destruct (_parse_size (getenv env "CACHE_SIZE" "1GB")) as [l | e]; [| discriminate].
  destruct (banner_overflow _); [discriminate |].
  intros [= <-]. now repeat split.
Qed.

Lemma constructed_covers (env : gmap string string) (fs : gmap string bytes) (s0 : state) :
  AIStor env fs None = Started s0 -> counter_covers_entries s0.
Proof.
  intros H. destruct (constructed_empty env fs s0 H) as (Hd & Hc & _).
  unfold counter_covers_entries, wf, sizes_nonneg. rewrite Hd, Hc. simpl.
  repeat split; try constructor. lia.
Qed.

Lemma reachable_covers (s0 s : state) :
  counter_covers_entries s0 -> reachable s0 s -> counter_covers_entries s.
Proof.
  intros H0. induction 1 as [| s s' _ IH Hstep]; [exact H0 |].
  eapply step_covers; eassumption.
Qed.

End InvariantFacts.

(** ** C3: eviction converges to the low-water mark *)

(** C3 as stated fails, in both halves, because enforcement tests the
    running counter and not the sum of the entry sizes.  When a path is
    written twice with six bytes under a limit of 10, the second write
    reaches line 108 with one entry of six bytes, at most the limit, and
    the counter at 12: enforcement is no no-op, it evicts the entry.  And
    in a cache constructed over a snapshot with four entries of two bytes
    under a limit of 5, the sum is 8, above the limit and above the mark,
    the counter is 0, and enforcement returns without evicting anything. *)
Lemma enforcement_tests_the_counter :
  (let b := payload "sixsix" in
   let s := inserted "a.json" b 2 (snd (cache_file "a.json" b 1 (fresh 1048576 10))) in
   total_size (metadata_cache s) = 6 /\
   cache_size_limit s = 10 /\
   metadata_cache (snd (_enforce_cache_limits s)) = [] /\
   fst (get_cached_file "a.json" 3
          (snd (cache_file "a.json" b 2 (snd (cache_file "a.json" b 1 (fresh 1048576 10))))))
     = Return None) /\
  (exists s,
     AIStor (<["CACHE_SIZE" := "5"]> ∅) (disk crowded)
       (Some (Parsed (metadata_document (metadata_cache crowded)))) = Started s /\
     total_size (metadata_cache s) = 8 /\
     cache_size_limit s = 5 /\
     _enforce_cache_limits s = (Return tt, s) /\
     metadata_cache s <> []).
Proof.
  split.
  - vm_compute. repeat split; reflexivity.
  - eexists. split; [vm_compute; reflexivity |].
    vm_compute. repeat split; try reflexivity. discriminate.
Qed.

(** C3, amended: the size that enforcement tests is the running counter
    [current_cache_size].  On a well-formed state whose entries name files
    of the cache directory, with a limit that [low_water] compares exactly,
    [_enforce_cache_limits] returns; it
    changes nothing when the counter is at or below the limit; otherwise,
    when it returns, either the counter is at most [cache_size_limit * 0.8]
    or the index is empty.  Where the counter is not below the sum of the
    (non-negative) entry sizes before, that sum obeys the same bound
    after. *)
Theorem eviction_converges (s : state) :
  wf s ->
  housed s ->
  exact_limit (cache_size_limit s) ->
  exists s', _enforce_cache_limits s = (Return tt, s') /\
    cache_size_limit s' = cache_size_limit s /\
    (current_cache_size s <= cache_size_limit s -> s' = s) /\
    (cache_size_limit s < current_cache_size s ->
       5 * current_cache_size s' <= 4 * cache_size_limit s \/ metadata_cache s' = []) /\
    (sizes_nonneg (metadata_cache s) ->
     total_size (metadata_cache s) <= current_cache_size s ->
     cache_size_limit s < current_cache_size s ->
       5 * total_size (metadata_cache s') <= 4 * cache_size_limit s \/
       metadata_cache s' = []).
Proof.
  intros Hwf _ _.
  destruct (EnforceFacts.enforce_run s Hwf) as (n & Hn & Hrun & Hzero & _ & Hend).
  pose proof (EvictFacts.snapshot_ok_firstn n _ _ (EnforceFacts.sorted_files_ok s Hwf)) as Hok.
  destruct (SweepFacts.evicted_all_fields _ _ Hok) as (_ & Hlim & _ & _).
  assert (Hcounter : cache_size_limit s < current_cache_size s ->
            5 * current_cache_size (evicted_all (List.firstn n (sorted_files s)) s)
              <= 4 * cache_size_limit s \/
            metadata_cache (evicted_all (List.firstn n (sorted_files s)) s) = []).
  { intros Hgt. destruct (Hend Hgt) as [-> | Hlow].
    - right. rewrite List.firstn_all. now apply EnforceFacts.evicted_all_everything.
    - left. unfold low_water in Hlow. apply Z.leb_le in Hlow. now rewrite Hlim in Hlow. }
  eexists. split; [exact Hrun |]. split; [exact Hlim |]. split; [| split].
  - intros Hle. rewrite (Hzero Hle). reflexivity.
  - exact Hcounter.
  - intros Hsz Hsum Hgt.
    pose proof (InvariantFacts.enforce_covers s (conj Hwf (conj Hsz Hsum))) as (_ & _ & Hsum').
    rewrite Hrun in Hsum'. cbn [snd] in Hsum'.
    destruct (Hcounter Hgt) as [Hlow | Hempty]; [left; lia | now right].
Qed.

Lemma eviction_converges_witness :
  exists s', _enforce_cache_limits crowded = (Return tt, s') /\
    cache_size_limit s' = cache_size_limit crowded /\
    (current_cache_size crowded <= cache_size_limit crowded -> s' = crowded) /\
    (cache_size_limit crowded < current_cache_size crowded ->
       5 * current_cache_size s' <= 4 * cache_size_limit crowded \/
       metadata_cache s' = []) /\
    (sizes_nonneg (metadata_cache crowded) ->
     total_size (metadata_cache crowded) <= current_cache_size crowded ->
     cache_size_limit crowded < current_cache_size crowded ->
       5 * total_size (metadata_cache s') <= 4 * cache_size_limit crowded \/
       metadata_cache s' = []).
Proof.
  apply eviction_converges.
  - apply EnforceFacts.wf_dec_wf. reflexivity.
  - repeat (apply List.Forall_cons; [eexists; split; reflexivity |]). apply List.Forall_nil.
  - reflexivity.
Defined.

(** For a cache constructed with no snapshot file on disk (whatever other
    files the disk holds), with a limit that [low_water] compares exactly:
    in every state it can reach by writes, reads, enforcements and files
    deleted behind its back, the index is well formed, the entry sizes are
    not negative and their sum is at most [current_cache_size]: the counter
    drifts upwards only. *)
Theorem counter_never_below_sum (env : gmap string string) (fs : gmap string bytes)
    (s0 s : state) :
  AIStor env fs None = Started s0 ->
  exact_limit (cache_size_limit s0) ->
  reachable s0 s ->
  counter_covers_entries s.
Proof.
  intros Hinit _ Hreach.
  eapply InvariantFacts.reachable_covers; [| exact Hreach].
  eapply InvariantFacts.constructed_covers; exact Hinit.
Qed.

Lemma counter_never_below_sum_witness :
  counter_covers_entries
    (snd (cache_file "a.json" (payload "x") 2
       (snd (cache_file "a.json" (payload "x") 1 (fresh 1048576 1073741824))))).
Proof.
  apply (counter_never_below_sum
           (<["CACHE_SIZE" := "1073741824"]> ∅) ∅ (fresh 1048576 1073741824)).
  - vm_compute. reflexivity.
  - reflexivity.
  - eapply reachable_step; [| apply step_write].
    eapply reachable_step; [| apply step_write].
    apply reachable_start.
Defined.

(** For a cache constructed with no snapshot file on disk, with a limit
    that [low_water] compares exactly: when a write of a path that [open]
    accepts, in a state the cache can reach, takes the counter over the
    limit, it returns with the sum of the entry sizes at most
    [cache_size_limit * 0.8], or with an empty index. *)
Theorem write_bounds_entries (env : gmap string string) (fs : gmap string bytes)
    (s0 s : state) (p : string) (b : bytes) (now : Z) :
  AIStor env fs None = Started s0 ->
  reachable s0 s ->
  exact_limit (cache_size_limit s) ->
  storable p = true ->
  exists s1,
    cache_file p b now s = (Return (cache_path_of p b), s1) /\
    (cache_size_limit s < current_cache_size s + Z.of_nat (List.length b) ->
     5 * total_size (metadata_cache s1) <= 4 * cache_size_limit s1 \/
     metadata_cache s1 = []).
Proof.
  intros Hinit Hreach _ Hp.
  assert (Hcov : counter_covers_entries s).
  { eapply InvariantFacts.reachable_covers; [| exact Hreach].
    eapply InvariantFacts.constructed_covers; exact Hinit. }
  apply (InvariantFacts.inserted_covers p b now) in Hcov.
  set (s1 := inserted p b now s) in *.
  pose proof Hcov as (Hwf & _).
  destruct (EnforceFacts.enforce_run s1 Hwf) as (n & _ & Hrun & _ & _ & Hend).
  pose proof (InvariantFacts.enforce_covers s1 Hcov) as (_ & _ & Hsum).
  rewrite Hrun in Hsum. cbn [snd] in Hsum.
  rewrite CacheFacts.cache_file_unfold by exact Hp. fold s1. rewrite Hrun.
  eexists. split; [reflexivity |]. simpl.
  intros Hgt. destruct (Hend Hgt) as [-> | Hlow].
  - right. rewrite List.firstn_all. now apply EnforceFacts.evicted_all_everything.
  - left. unfold low_water in Hlow. apply Z.leb_le in Hlow. lia.
Qed.

Lemma write_bounds_entries_witness :
  exists s1,
    cache_file "run/e5.json" (kilobyte "5") 5 after_four =
      (Return (cache_path_of "run/e5.json" (kilobyte "5")), s1) /\
    (cache_size_limit after_four
       < current_cache_size after_four + Z.of_nat (List.length (kilobyte "5")) ->
     5 * total_size (metadata_cache s1) <= 4 * cache_size_limit s1 \/
     metadata_cache s1 = []).
Proof.
  apply (write_bounds_entries
           (<["CACHE_SIZE" := "4096b"]> (<["SMALL_FILE_THRESHOLD" := "1024"]> ∅)) ∅
           (fresh 1024 4096)).
  - vm_compute. reflexivity.
  - unfold after_four.
    eapply reachable_step; [| apply step_write].
    eapply reachable_step; [| apply step_write].
    eapply reachable_step; [| apply step_write].
    eapply reachable_step; [| apply step_write].
    apply reachable_start.
  - reflexivity.
  - reflexivity.
Defined.

(** ** The scenario of the specification *)

(** At the bound nothing is evicted; the fifth write evicts the two oldest
    entries and the three most recent stay, in their order. *)
Example spec_scenario :
  Dict.keys (metadata_cache after_four) =
    ["run/e1.json"; "run/e2.json"; "run/e3.json"; "run/e4.json"] /\
  current_cache_size after_four = 4096 /\
  Dict.keys (metadata_cache after_five) = ["run/e3.json"; "run/e4.json"; "run/e5.json"] /\
  current_cache_size after_five = 3072 /\
  List.filter (fun l => match l with Evicted _ => true | _ => false end) (stdout after_five) =
    [Evicted "run/e1.json"; Evicted "run/e2.json"] /\
  fst (get_cached_file "run/e5.json" 6 after_five) = Return (Some (kilobyte "5")) /\
  fst (get_cached_file "run/e1.json" 6 after_five) = Return None.
Proof. vm_compute. repeat split; reflexivity. Qed.

(** The constructor with a size in bytes. *)
Example init_with_byte_suffix :
  __init__ (<["CACHE_SIZE" := "4096b"]> (<["SMALL_FILE_THRESHOLD" := "1024"]> ∅)) ∅ =
  Return (fresh 1024 4096).
Proof. vm_compute. reflexivity. Qed.

(** ** Reads *)

Module ReadFacts.
Import CacheFacts.

Lemma keys_set_present {V : Type} (k : string) (v v' : V) (d : list (string * V)) :
  Dict.get k d = Some v -> Dict.keys (Dict.set k v' d) = Dict.keys d.
Proof.
  intros H. rewrite DictFacts.keys_set. unfold Dict.contains. now rewrite H.
Qed.


Lemma last_cons {A : Type} (t d : A) (r : list A) :
  List.last (t :: r) d = List.last r t.
Proof.
  destruct r as [|x r]; [reflexivity |].
  change (List.last (t :: x :: r) d) with (List.last (x :: r) d).
  revert x. induction r as [|y r IH]; intros x; [reflexivity |].
  change (List.last (x :: y :: r) d) with (List.last (y :: r) d).
  change (List.last (x :: y :: r) t) with (List.last (y :: r) t).
  apply IH.
Qed.

(** A run of reads of an entry whose file is there: all hit. *)
Lemma read_all_hits (p : string) (data : bytes) (ts : list Z) :
  forall s m loc,
    Dict.get p (metadata_cache s) = Some m ->
    cache_location m = Some loc ->
    disk s !! loc = Some data ->
    read_results p ts s = List.repeat (Return (Some data)) (List.length ts) /\
    Dict.get p (metadata_cache (read_all p ts s)) =
      Some {| file_path := file_path m;
              size := size m;
              hash := hash m;
              access_count := access_count m + Z.of_nat (List.length ts);
              last_access := List.last ts (last_access m);
              cache_location := cache_location m |} /\
    Dict.keys (metadata_cache (read_all p ts s)) = Dict.keys (metadata_cache s) /\
    disk (read_all p ts s) = disk s /\
    current_cache_size (read_all p ts s) = current_cache_size s.
Proof.
  induction ts as [|t r IH]; intros s m loc Hm Hloc Hfs.
  - simpl. rewrite Z.add_0_r. repeat split; try reflexivity.
    rewrite Hm. now destruct m.
  - cbn [read_all read_results List.length List.repeat].
    rewrite (get_cached_file_hit _ t _ _ _ _ Hm Hloc Hfs). cbn [fst snd].
    set (s1 := with_stdout _ _).
    assert (Hm1 : Dict.get p (metadata_cache s1) = Some (touch t m))
      by apply DictFacts.get_set_eq.
    destruct (IH s1 (touch t m) loc Hm1 Hloc Hfs) as (Hres & Hget & Hkeys & Hdisk & Hcount).
    rewrite Hres, Hget, Hkeys, Hdisk, Hcount.
    repeat split; try reflexivity.
    + rewrite last_cons. simpl. do 2 f_equal. lia.
    + simpl. now apply keys_set_present with m.
Qed.

End ReadFacts.



(** Reads count: when the entry of a path names a file that is on disk,
    any number of reads in a row all return the bytes of that file, and they
    leave the entry with as many more accesses, last accessed at the time of
    the last read, with its size, hash and location as they were; the order
    of the index, the disk and the counter are unchanged. *)
Theorem reads_count_accesses (s : state) (p : string) (m : FileMetadata)
    (loc : string) (data : bytes) (times : list Z) :
  Dict.get p (metadata_cache s) = Some m ->
  cache_location m = Some loc ->
  disk s !! loc = Some data ->
  read_results p times s = List.repeat (Return (Some data)) (List.length times) /\
  Dict.get p (metadata_cache (read_all p times s)) =
    Some {| file_path := file_path m;
            size := size m;
            hash := hash m;
            access_count := access_count m + Z.of_nat (List.length times);
            last_access := List.last times (last_access m);
            cache_location := cache_location m |} /\
  Dict.keys (metadata_cache (read_all p times s)) = Dict.keys (metadata_cache s) /\
  disk (read_all p times s) = disk s /\
  current_cache_size (read_all p times s) = current_cache_size s.
Proof.
  intros Hm Hloc Hfs.
  destruct (ReadFacts.read_all_hits p data times s m loc Hm Hloc Hfs)
    as (Hres & Hget & Hkeys & Hdisk & Hcount).
  split; [exact Hres |]. split; [exact Hget |].
  split; [exact Hkeys |]. split; [exact Hdisk | exact Hcount].
Qed.

Lemma reads_count_accesses_witness :
  let m := snd (entry "c.json" 2 7 "/cache/small-files/c") in
  read_results "c.json" [10; 11; 12] crowded =
    List.repeat (Return (Some (payload "cc"))) (List.length [10; 11; 12]) /\
  Dict.get "c.json" (metadata_cache (read_all "c.json" [10; 11; 12] crowded)) =
    Some {| file_path := file_path m;
            size := size m;
            hash := hash m;
            access_count := access_count m + Z.of_nat (List.length [10; 11; 12]);
            last_access := List.last [10; 11; 12] (last_access m);
            cache_location := cache_location m |} /\
  Dict.keys (metadata_cache (read_all "c.json" [10; 11; 12] crowded)) =
    Dict.keys (metadata_cache crowded) /\
  disk (read_all "c.json" [10; 11; 12] crowded) = disk crowded /\
  current_cache_size (read_all "c.json" [10; 11; 12] crowded) = current_cache_size crowded.
Proof.
  apply (reads_count_accesses crowded "c.json" _ "/cache/small-files/c" (payload "cc")).
  - reflexivity.
  - reflexivity.
  - vm_compute. reflexivity.
Defined.

(** ** Enforcement, once more *)

Module LruFacts.
Import EvictFacts SweepFacts EnforceFacts CacheFacts.



Lemma StronglySorted_app_order {A : Type} (R : A -> A -> Prop) (l1 l2 : list A) :
  StronglySorted R (l1 ++ l2) -> forall x y, In x l1 -> In y l2 -> R x y.
Proof.
  induction l1 as [|a l1 IH]; intros Hs x y Hx Hy; [destruct Hx |].
  simpl in Hs. apply StronglySorted_inv in Hs as [Hs Ha].
  destruct Hx as [<- | Hx].
  - apply (proj1 (List.Forall_forall _ _) Ha). apply List.in_or_app. now right.
  - now apply IH.
Qed.

Lemma NoDup_app_disjoint {A : Type} (l1 l2 : list A) :
  List.NoDup (l1 ++ l2) -> forall x, In x l1 -> ~ In x l2.
Proof.
  induction l1 as [|a l1 IH]; intros Hnd x Hx; [destruct Hx |].
  simpl in Hnd. apply List.NoDup_cons_iff in Hnd as [Ha Hnd].
  destruct Hx as [<- | Hx].
  - intros H. apply Ha. apply List.in_or_app. now right.
  - now apply IH.
Qed.

(** When the entry of [p] is the most recently accessed one, enforcement
    removes it only together with everything else. *)
Lemma latest_evicted_last (s : state) (p : string) (m : FileMetadata) :
  wf s ->
  Dict.get p (metadata_cache s) = Some m ->
  others_older p (last_access m) (metadata_cache s) ->
  forall n,
    Dict.get p (metadata_cache (evicted_all (List.firstn n (sorted_files s)) s)) = None ->
    metadata_cache (evicted_all (List.firstn n (sorted_files s)) s) = [].
Proof.
  intros Hwf Hm Hold n Hgone. pose proof Hwf as [Hnd _].
  pose proof (sorted_files_ok s Hwf) as Hok.
  pose proof (snapshot_ok_firstn n _ _ Hok) as Hokn.
  pose proof (SortFacts.sorted_perm by_last_access (metadata_cache s)) as Hperm.
  fold (sorted_files s) in Hperm.
  destruct (evicted_all_fields _ _ Hokn) as (_ & _ & Hidx & _).
  rewrite Hidx in Hgone |- *.
  assert (Hin : In p (Dict.keys (List.firstn n (sorted_files s)))).
  { destruct (in_dec string_dec p (Dict.keys (List.firstn n (sorted_files s))))
      as [Hin | Hout]; [exact Hin |].
    rewrite (get_without_notin _ _ _ Hout), Hm in Hgone. discriminate. }
  apply in_map_iff in Hin as ([p' m'] & Hp' & Hin). simpl in Hp'. subst p'.
  assert (Hm' : m' = m).
  { assert (Hidx' : In (p, m') (metadata_cache s)).
    { eapply Permutation_in; [exact Hperm |]. eapply In_firstn; exact Hin. }
    apply (DictFacts.In_get _ _ _ Hnd) in Hidx'. congruence. }
  subst m'.
  assert (Hrest : List.skipn n (sorted_files s) = []).
  { destruct (List.skipn n (sorted_files s)) as [|[q mq] rest] eqn:Hskip; [reflexivity |].
    exfalso.
    assert (Hq : In (q, mq) (List.skipn n (sorted_files s))) by (rewrite Hskip; now left).
    pose proof (SortFacts.sorted_ascending by_last_access (metadata_cache s)) as Hs.
    fold (sorted_files s) in Hs.
    rewrite <- (List.firstn_skipn n (sorted_files s)) in Hs.
    pose proof (StronglySorted_app_order _ _ _ Hs _ _ Hin Hq) as Hle.
    unfold Sort.ascending, by_last_access in Hle. simpl in Hle.
    assert (Hne : q <> p).
    { destruct Hok as (Hndl & _).
      rewrite <- (List.firstn_skipn n (sorted_files s)) in Hndl.
      unfold Dict.keys in Hndl. rewrite List.map_app in Hndl.
      intros ->.
      apply (NoDup_app_disjoint _ _ Hndl p).
      - apply in_map_iff. now exists (p, m).
      - apply in_map_iff. now exists (p, mq). }
    assert (Hqidx : In (q, mq) (metadata_cache s)).
    { eapply Permutation_in; [exact Hperm |].
      rewrite <- (List.firstn_skipn n (sorted_files s)). apply List.in_or_app. now right. }
    specialize (Hold q mq Hqidx Hne). lia. }
  assert (Hall : List.firstn n (sorted_files s) = sorted_files s).
  { rewrite <- (List.firstn_skipn n (sorted_files s)) at 2.
    now rewrite Hrest, List.app_nil_r. }
  rewrite Hall. apply without_all. intros k Hk.
  eapply Permutation_in; [| exact Hk]. apply Permutation_map. now symmetry.
Qed.

End LruFacts.



(** A write whose timestamp is later than the last access of every other
    entry loses its own entry only when the whole index is emptied: in a
    well-formed cache whose entries name files of the cache directory, with
    a limit that [low_water] compares exactly, for a path whose name [open]
    accepts, if the path written has no entry when [cache_file] returns,
    the index is empty. *)
Theorem write_evicts_itself_last (s : state) (p : string) (b : bytes) (now : Z) :
  storable p = true ->
  wf s ->
  housed s ->
  exact_limit (cache_size_limit s) ->
  others_older p now (metadata_cache s) ->
  exists s1,
    cache_file p b now s = (Return (cache_path_of p b), s1) /\
    (Dict.get p (metadata_cache s1) = None -> metadata_cache s1 = []).
Proof.
  intros Hp Hwf _ _ Hold.
  destruct (CacheFacts.cache_file_run p b now s Hp Hwf) as (n & _ & Hrun & _).
  cbv zeta in Hrun. eexists. split; [exact Hrun |]. simpl.
  apply (LruFacts.latest_evicted_last (inserted p b now s) p (new_metadata p b now)).
  - now apply CacheFacts.inserted_wf.
  - simpl. apply DictFacts.get_set_eq.
  - intros q m Hin Hq. simpl in Hin |- *.
    apply DictFacts.In_set in Hin as [[= -> ->] | Hin]; [contradiction |].
    now apply (Hold q m).
Qed.

Lemma write_evicts_itself_last_witness :
  exists s1,
    cache_file "e.json" (payload "ee") 9 crowded =
      (Return (cache_path_of "e.json" (payload "ee")), s1) /\
    (Dict.get "e.json" (metadata_cache s1) = None -> metadata_cache s1 = []).
Proof.
  apply write_evicts_itself_last.
  - reflexivity.
  - apply EnforceFacts.wf_dec_wf. reflexivity.
  - repeat (apply List.Forall_cons; [eexists; split; reflexivity |]). apply List.Forall_nil.
  - reflexivity.
  - intros q m Hin Hq. simpl in Hin.
    destruct Hin as [H | [H | [H | [H | []]]]]; injection H as <- <-; simpl; lia.
Defined.

Example crowded_write :
  let s1 := snd (cache_file "e.json" (payload "ee") 9 crowded) in
  Dict.keys (metadata_cache s1) = ["c.json"; "e.json"] /\ current_cache_size s1 = 4.
Proof. vm_compute. split; reflexivity. Qed.

(** ** The cache path *)

Module PathFacts.

Lemma no_slash_app (a b : string) : no_slash (a +:+ b) = no_slash a && no_slash b.
Proof.
  induction a as [|c a IH]; [reflexivity |].
  rewrite StrFacts.app_cons. simpl. now rewrite IH, andb_assoc.
Qed.

Lemma split_no_slash (s : string) :
  Forall (fun c => no_slash c = true) (Str.split "/" s).
Proof.
  induction s as [|c s IH]; simpl.
  - constructor; [reflexivity | constructor].
  - destruct (Ascii.eqb c "/") eqn:Hc.
    + constructor; [reflexivity | exact IH].
    + destruct (Str.split "/" s) as [|h t].
      * constructor; [simpl; now rewrite Hc | constructor].
      * apply List.Forall_cons_iff in IH as [Hh Ht].
        constructor; [simpl; now rewrite Hc, Hh | exact Ht].
Qed.

Lemma last_Forall {A : Type} (P : A -> Prop) (l : list A) (d : A) :
  P d -> Forall P l -> P (List.last l d).
Proof.
  intros Hd. induction 1 as [|x l Hx Hl IH]; [exact Hd |].
  destruct l; [exact Hx | exact IH].
Qed.

Lemma name_no_slash (p : string) : no_slash (Path.name p) = true.
Proof.
  unfold Path.name, Path.parts.
  apply (last_Forall (fun c => no_slash c = true)); [reflexivity |].
  apply List.Forall_forall. intros c Hc. apply filter_In in Hc as [Hc _].
  now apply (proj1 (List.Forall_forall _ _) (split_no_slash p)).
Qed.

Lemma hex_digit_no_slash (n : Z) :
  Ascii.eqb (SHA256.hex_digit (n mod 16)) "/" = false.
Proof.
  pose proof (Z.mod_pos_bound n 16 ltac:(lia)) as H.
  assert (Hcases : n mod 16 = 0 \/ n mod 16 = 1 \/ n mod 16 = 2 \/ n mod 16 = 3 \/
                   n mod 16 = 4 \/ n mod 16 = 5 \/ n mod 16 = 6 \/ n mod 16 = 7 \/
                   n mod 16 = 8 \/ n mod 16 = 9 \/ n mod 16 = 10 \/ n mod 16 = 11 \/
                   n mod 16 = 12 \/ n mod 16 = 13 \/ n mod 16 = 14 \/ n mod 16 = 15) by lia.
  repeat (destruct Hcases as [-> | Hcases]; [reflexivity |]).
  now rewrite Hcases.
Qed.

Lemma hex_shape (k : nat) :
  forall n acc,
    Str.len (SHA256.hex k n acc) = (k + Str.len acc)%nat /\
    no_slash (SHA256.hex k n acc) = no_slash acc.
Proof.
  induction k as [|k IH]; intros n acc; [now split |].
  cbn [SHA256.hex]. destruct (IH (n / 16) (String (SHA256.hex_digit (n mod 16)) acc)) as [Hl Hs].
  rewrite Hl, Hs. split; [simpl; lia |].
  simpl. now rewrite hex_digit_no_slash.
Qed.

Lemma hexdigest16_shape (b : bytes) :
  Str.len (SHA256.hexdigest16 b) = 16%nat /\ no_slash (SHA256.hexdigest16 b) = true.
Proof.
  unfold SHA256.hexdigest16.
  destruct (hex_shape 8 (SHA256.ra (SHA256.digest b))
              (SHA256.hex 8 (SHA256.rb (SHA256.digest b)) "")) as [Hl Hs].
  destruct (hex_shape 8 (SHA256.rb (SHA256.digest b)) "") as [Hl' Hs'].
  rewrite Hl, Hs, Hl', Hs'. now split.
Qed.

Lemma app_inj_len (a b c d : string) :
  Str.len a = Str.len c -> a +:+ b = c +:+ d -> a = c /\ b = d.
Proof.
  revert c. induction a as [|x a IH]; intros [|y c] Hlen Heq; try discriminate.
  - now split.
  - rewrite !StrFacts.app_cons in Heq. injection Heq as -> Heq.
    simpl in Hlen. destruct (IH c ltac:(lia) Heq) as [-> ->]. now split.
Qed.

End PathFacts.

(** Whatever the logical path, the cache file lies directly in
    [/cache/small-files]: the cache path is that directory, a separator,
    and one component without a separator in it, which starts with the
    sixteen digits of the digest and so is neither empty nor [.] nor [..]. *)
Theorem cache_path_stays_inside (p : string) (b : bytes) :
  exists component,
    cache_path_of p b = small_files_dir +:+ "/" +:+ component /\
    component = SHA256.hexdigest16 b +:+ "_" +:+ Path.name p /\
    no_slash component = true /\
    (17 <= Str.len component)%nat /\
    component <> "." /\ component <> "..".
Proof.
  destruct (PathFacts.hexdigest16_shape b) as [Hlen Hslash].
  exists (SHA256.hexdigest16 b +:+ "_" +:+ Path.name p).
  assert (Hl : (17 <= Str.len (SHA256.hexdigest16 b +:+ "_" +:+ Path.name p))%nat).
  { rewrite !StrFacts.len_app, Hlen. simpl. lia. }
  split; [reflexivity |]. split; [reflexivity |]. split; [| split; [exact Hl |]].
  - rewrite !PathFacts.no_slash_app, Hslash, PathFacts.name_no_slash. reflexivity.
  - split; intros Heq; rewrite Heq in Hl; simpl in Hl; lia.
Qed.

Example traversal_stays_inside :
  cache_path_of "../../etc/passwd.txt" (payload "x") =
    "/cache/small-files/2d711642b726b044_passwd.txt" /\
  cache_path_of "a/b/.." (payload "x") = "/cache/small-files/2d711642b726b044_..".
Proof. vm_compute. split; reflexivity. Qed.

(** Two writes use the same cache file exactly when their payloads have the
    same digest prefix and their logical paths the same name. *)
Theorem cache_paths_collide (p1 p2 : string) (b1 b2 : bytes) :
  cache_path_of p1 b1 = cache_path_of p2 b2 <->
  SHA256.hexdigest16 b1 = SHA256.hexdigest16 b2 /\ Path.name p1 = Path.name p2.
Proof.
  unfold cache_path_of. split.
  - intros H.
    apply (PathFacts.app_inj_len small_files_dir _ small_files_dir _ eq_refl) in H as [_ H].
    apply (PathFacts.app_inj_len "/" _ "/" _ eq_refl) in H as [_ H].
    destruct (PathFacts.hexdigest16_shape b1) as [H1 _].
    destruct (PathFacts.hexdigest16_shape b2) as [H2 _].
    apply PathFacts.app_inj_len in H as [Hh H]; [| congruence].
    apply (PathFacts.app_inj_len "_" _ "_" _ eq_refl) in H as [_ H].
    now split.
  - intros [-> ->]. reflexivity.
Qed.

(** ** The snapshot: written by the monitor, read by the constructor *)

Module SnapshotFacts.

Lemma kwargs_asdict (m : FileMetadata) :
  FileMetadata_of_kwargs (asdict m) = Return (raw_of m).
Proof. destruct m as [p n h c t [loc|]]; reflexivity. Qed.

Lemma typed_raw_of (m : FileMetadata) : typed (raw_of m) = Some m.
Proof. destruct m as [p n h c t [loc|]]; reflexivity. Qed.

Lemma load_document (d : list (string * FileMetadata)) :
  load_records (List.map (fun kv => (fst kv, asdict (snd kv))) d) =
  Return (List.map (fun kv => (fst kv, raw_of (snd kv))) d).
Proof.
  induction d as [|[k m] d IH]; [reflexivity |].
  cbn [List.map load_records fst snd]. now rewrite kwargs_asdict, IH.
Qed.

Lemma typed_document (d : list (string * FileMetadata)) :
  typed_records (List.map (fun kv => (fst kv, raw_of (snd kv))) d) = Some d.
Proof.
  induction d as [|[k m] d IH]; [reflexivity |].
  cbn [List.map typed_records fst snd]. now rewrite typed_raw_of, IH.
Qed.

(** What is read back from a snapshot of an index is that index. *)
Lemma initialize_from_document (d : list (string * FileMetadata)) (s : state) :
  _initialize_cache (Some (Parsed (metadata_document d))) s =
  banner (with_metadata_cache d s).
Proof.
  unfold _initialize_cache, metadata_document.
  now rewrite load_document, typed_document.
Qed.

Lemma banner_started (s s' : state) :
  banner s = Started s' ->
  banner_overflow s = false /\ s' = with_stdout (stdout s ++ [Initialized]) s.
Proof.
  unfold banner. destruct (banner_overflow s); [discriminate |].
  intros [= <-]. now split.
Qed.




Lemma stats_returns (s : state) :
  cache_size_limit s <> 0 ->
  stats_overflow s = false ->
  exists st, get_cache_stats s = (Return st, s) /\
             total_cached_files st = Z.of_nat (List.length (metadata_cache s)).
Proof.
  intros H Hf. rewrite (StatsFacts.stats_run s H Hf).
  eexists. split; reflexivity.
Qed.

Lemma stats_raises (s : state) :
  cache_size_limit s = 0 ->
  early_overflow s = false ->
  get_cache_stats s = (Raise ZeroDivisionError, s).
Proof.
  intros H Hf. unfold get_cache_stats, bind, gets, ret, raise. simpl.
  now rewrite Hf, H.
Qed.

(** Whatever the statistics do, they leave the cache as it is. *)
Lemma stats_pure (s : state) : snd (get_cache_stats s) = s.
Proof.
  unfold get_cache_stats, bind, gets, ret, raise. simpl.
  destruct (early_overflow s); [reflexivity |].
  destruct (cache_size_limit s =? 0); [reflexivity |].
  destruct (too_large _ _); reflexivity.
Qed.

Lemma host_eta (h : host) :
  h = {| cache := cache h; metadata_file := metadata_file h; monitor_out := monitor_out h |}.
Proof. now destruct h. Qed.

Lemma passes_persist (n : nat) :
  forall h,
    cache_size_limit (cache h) <> 0 ->
    stats_overflow (cache h) = false ->
    dumpable (metadata_cache (cache h)) = true ->
    cache (monitor_passes n h) = cache h /\
    metadata_file (monitor_passes n h) =
      match n with
      | O => metadata_file h
      | S _ => Some (Parsed (metadata_document (metadata_cache (cache h))))
      end /\
    monitor_out (monitor_passes n h) =
      monitor_out h ++
      List.repeat (Stats (Z.of_nat (List.length (metadata_cache (cache h))))) n.
Proof.
  induction n as [|n IH]; intros h Hlimit Hfloat Hdump.
  - simpl. now rewrite List.app_nil_r.
  - cbn [monitor_passes]. destruct (stats_returns _ Hlimit Hfloat) as (st & Hst & Htotal).
    assert (Hpass : monitor_pass h =
              {| cache := cache h;
                 metadata_file := Some (Parsed (metadata_document (metadata_cache (cache h))));
                 monitor_out := monitor_out h ++ [Stats (total_cached_files st)] |}).
    { unfold monitor_pass. now rewrite Hst, Hdump. }
    rewrite Hpass. set (h1 := Build_host _ _ _).
    destruct (IH h1 Hlimit Hfloat Hdump) as (Hc & Hf & Ho).
    rewrite Hc, Hf, Ho. subst h1. cbn [cache metadata_file monitor_out].
    repeat split.
    + now destruct n.
    + rewrite Htotal, <- List.app_assoc. reflexivity.
Qed.

Lemma passes_fail (n : nat) :
  forall h,
    cache_size_limit (cache h) = 0 ->
    early_overflow (cache h) = false ->
    cache (monitor_passes n h) = cache h /\
    metadata_file (monitor_passes n h) = metadata_file h /\
    monitor_out (monitor_passes n h) =
      monitor_out h ++ List.repeat (Failure ZeroDivisionError) n.
Proof.
  induction n as [|n IH]; intros h Hlimit Hfloat.
  - simpl. now rewrite List.app_nil_r.
  - cbn [monitor_passes].
    assert (Hpass : monitor_pass h =
              {| cache := cache h;
                 metadata_file := metadata_file h;
                 monitor_out := monitor_out h ++ [Failure ZeroDivisionError] |}).
    { unfold monitor_pass. now rewrite (stats_raises _ Hlimit Hfloat). }
    rewrite Hpass. set (h1 := Build_host _ _ _).
    destruct (IH h1 Hlimit Hfloat) as (Hc & Hf & Ho).
    rewrite Hc, Hf, Ho. subst h1. cbn [cache metadata_file monitor_out].
    repeat split. rewrite <- List.app_assoc. reflexivity.
Qed.

End SnapshotFacts.



(** A restart forgets the sizes: a cache constructed from a snapshot holds
    the entries of the snapshot with its counter at zero.  So the counter is
    below the sum of the entry sizes as soon as that sum is positive, and a
    write that fits the limit by itself, of a path whose name [open]
    accepts, evicts nothing, however much the entries read from the
    snapshot add up to. *)
Theorem restart_forgets_sizes (env : gmap string string) (fs : gmap string bytes)
    (d : list (string * FileMetadata)) (s : state) :
  AIStor env fs (Some (Parsed (metadata_document d))) = Started s ->
  metadata_cache s = d /\
  current_cache_size s = 0 /\
  disk s = fs /\
  (0 < total_size d -> ~ counter_covers_entries s) /\
  (forall p b now,
     storable p = true ->
     Z.of_nat (List.length b) <= cache_size_limit s ->
     exists s1,
       cache_file p b now s = (Return (cache_path_of p b), s1) /\
       metadata_cache s1 = Dict.set p (new_metadata p b now) d /\
       current_cache_size s1 = Z.of_nat (List.length b)).
Proof.
  unfold AIStor.
  destruct (PyInt.int (getenv env "SMALL_FILE_THRESHOLD" "1048576")) as [t | e];
    [| discriminate].
  destruct (_parse_size (getenv env "CACHE_SIZE" "1GB")) as [l | e]; [| discriminate].
  rewrite SnapshotFacts.initialize_from_document.
  intros Hs. apply SnapshotFacts.banner_started in Hs as [_ ->]. simpl.
  split; [reflexivity |]. split; [reflexivity |]. split; [reflexivity |]. split.
  - intros Hpos (_ & _ & Hsum). simpl in Hsum. lia.
  - intros p b now Hp Hfit. eexists.
    split; [apply CacheFacts.cache_file_within_limit; [exact Hp | simpl; lia] |].
    split; reflexivity.
Qed.

Lemma restart_forgets_sizes_witness :
  let s := {| small_file_threshold := 1024;
              cache_size_limit := 5;
              metadata_cache := metadata_cache crowded;
              current_cache_size := 0;
              disk := disk crowded;
              stdout := [Initialized] |} in
  metadata_cache s = metadata_cache crowded /\
  current_cache_size s = 0 /\
  disk s = disk crowded /\
  (0 < total_size (metadata_cache crowded) -> ~ counter_covers_entries s) /\
  (forall p b now,
     storable p = true ->
     Z.of_nat (List.length b) <= cache_size_limit s ->
     exists s1,
       cache_file p b now s = (Return (cache_path_of p b), s1) /\
       metadata_cache s1 = Dict.set p (new_metadata p b now) (metadata_cache crowded) /\
       current_cache_size s1 = Z.of_nat (List.length b)).
Proof.
  apply (restart_forgets_sizes
           (<["CACHE_SIZE" := "5b"]> (<["SMALL_FILE_THRESHOLD" := "1024"]> ∅))).
  vm_compute. reflexivity.
Defined.



Example startup_with_a_record_short_of_a_field :
  AIStor (<["CACHE_SIZE" := "5b"]> ∅) ∅
    (Some (Parsed (PDict
       [("a.json", asdict (snd (entry "a.json" 2 7 "/cache/small-files/a")));
        ("b.json", PDict [("file_path", PStr "b.json"); ("size", PInt 2)])]))) =
  Failed TypeError.
Proof. reflexivity. Qed.

(** What the monitor leaves on disk.  The loop never changes the cache.
    When the limit is not zero, the quotients of the statistics are in the
    range of a float and the ints of the index have at most 4300 digits,
    then after at least one pass the snapshot file holds the index of the
    cache, entry for entry, and each pass has printed the number of entries.
    With a limit of zero every pass fails in the statistics before the file
    is opened, and the snapshot file stays as it was, however many passes
    run. *)
Theorem monitor_loop_snapshot (h : host) (n : nat) :
  cache (monitor_loop n h) = cache h /\
  (cache_size_limit (cache h) <> 0 ->
   stats_overflow (cache h) = false ->
   dumpable (metadata_cache (cache h)) = true ->
   metadata_file (monitor_loop (S n) h) =
     Some (Parsed (metadata_document (metadata_cache (cache h)))) /\
   monitor_out (monitor_loop n h) =
     monitor_out h ++ Starting ::
     List.repeat (Stats (Z.of_nat (List.length (metadata_cache (cache h))))) n) /\
  (cache_size_limit (cache h) = 0 ->
   early_overflow (cache h) = false ->
   metadata_file (monitor_loop n h) = metadata_file h /\
   monitor_out (monitor_loop n h) =
     monitor_out h ++ Starting :: List.repeat (Failure ZeroDivisionError) n).
Proof.
  unfold monitor_loop. set (h0 := Build_host _ _ _).
  assert (Hc : cache h0 = cache h) by reflexivity.
  split; [| split].
  - transitivity (cache h0); [| exact Hc]. clear Hc. generalize h0. clear h0 h.
    induction n as [|n IH]; intros h; [reflexivity |].
    cbn [monitor_passes]. rewrite IH.
    unfold monitor_pass, failed_pass, get_cache_stats, bind, gets, ret, raise. simpl.
    destruct (early_overflow (cache h)); [reflexivity |].
    destruct (cache_size_limit (cache h) =? 0); [reflexivity |].
    destruct (too_large _ _); [reflexivity |].
    destruct (dumpable _); reflexivity.
  - intros Hnz Hfloat Hdump.
    destruct (SnapshotFacts.passes_persist (S n) h0 Hnz Hfloat Hdump) as (_ & -> & _).
    destruct (SnapshotFacts.passes_persist n h0 Hnz Hfloat Hdump) as (_ & _ & ->).
    subst h0. cbn [cache monitor_out]. split; [reflexivity |].
    now rewrite <- List.app_assoc.
  - intros Hz Hfloat.
    destruct (SnapshotFacts.passes_fail n h0 Hz Hfloat) as (_ & -> & ->).
    subst h0. cbn [metadata_file monitor_out]. split; [reflexivity |].
    now rewrite <- List.app_assoc.
Qed.

Lemma monitor_loop_snapshot_witness :
  metadata_file (monitor_loop 3 crowded_host) =
    Some (Parsed (metadata_document (metadata_cache (cache crowded_host)))) /\
  monitor_out (monitor_loop 2 crowded_host) =
    monitor_out crowded_host ++ Starting ::
    List.repeat (Stats (Z.of_nat (List.length (metadata_cache (cache crowded_host))))) 2.
Proof.
  apply (proj1 (proj2 (monitor_loop_snapshot crowded_host 2))).
  - vm_compute. discriminate.
  - vm_compute. reflexivity.
  - vm_compute. reflexivity.
Defined.

Example monitor_with_limit_zero :
  let h := {| cache := fresh 1048576 0; metadata_file := Some Garbage; monitor_out := [] |} in
  metadata_file (monitor_loop 3 h) = Some Garbage /\
  monitor_out (monitor_loop 3 h) =
    [Starting; Failure ZeroDivisionError; Failure ZeroDivisionError;
     Failure ZeroDivisionError].
Proof. vm_compute. split; reflexivity. Qed.

(** ** What the cache does not check, and what it does not delete *)

Module ConfigFacts.
Import EvictFacts SweepFacts EnforceFacts CacheFacts.

Lemma get_cached_file_limit (p : string) (now : Z) (s : state) :
  cache_size_limit (snd (get_cached_file p now s)) = cache_size_limit s.
Proof.
  unfold get_cached_file, bind, gets, modify, print, ret, raise. simpl.
  destruct (Dict.get p (metadata_cache s)) as [m|]; [| reflexivity].
  destruct (cache_location m) as [loc|]; [| reflexivity]. simpl.
  destruct (disk s !! loc); reflexivity.
Qed.

Lemma enforce_limit (s : state) :
  wf s -> cache_size_limit (snd (_enforce_cache_limits s)) = cache_size_limit s.
Proof.
  intros Hwf. destruct (enforce_run s Hwf) as (n & _ & -> & _). simpl.
  pose proof (snapshot_ok_firstn n _ _ (sorted_files_ok s Hwf)) as Hok.
  now destruct (evicted_all_fields _ _ Hok) as (_ & -> & _).
Qed.

Lemma cache_file_limit (p : string) (b : bytes) (now : Z) (s : state) :
  wf s -> cache_size_limit (snd (cache_file p b now s)) = cache_size_limit s.
Proof.
  intros Hwf. destruct (storable p) eqn:Hp.
  - pose proof (enforce_limit _ (inserted_wf p b now s Hwf)) as H.
    rewrite cache_file_unfold by exact Hp.
    destruct (_enforce_cache_limits (inserted p b now s)) as [[[] | e] s']; exact H.
  - now destruct (cache_file_refused p b now s Hp) as (e & -> & _).
Qed.

Lemma reachable_limit (s0 s : state) :
  counter_covers_entries s0 ->
  reachable s0 s ->
  counter_covers_entries s /\ cache_size_limit s = cache_size_limit s0.
Proof.
  intros H0. induction 1 as [| s s' _ [Hcov Hlim] Hstep].
  - split; [exact H0 | reflexivity].
  - split; [eapply InvariantFacts.step_covers; eassumption |].
    pose proof Hcov as (Hwf & _).
    destruct Hstep as [s p b now | s p now | s | s loc].
    + now rewrite cache_file_limit.
    + now rewrite get_cached_file_limit.
    + now rewrite enforce_limit.
    + exact Hlim.
Qed.

End ConfigFacts.

(** [cache_file] does not ask [should_cache]: whatever the extension of
    the path and however large the payload, when [open] accepts the name
    and the write keeps the counter within the limit, the payload is stored
    and the read that follows returns it, also when [should_cache] says
    no. *)
Theorem cache_file_ignores_policy (s : state) (p : string) (b : bytes) (now now' : Z) :
  storable p = true ->
  current_cache_size s + Z.of_nat (List.length b) <= cache_size_limit s ->
  exists s1 s2,
    cache_file p b now s = (Return (cache_path_of p b), s1) /\
    disk s1 !! cache_path_of p b = Some b /\
    Dict.get p (metadata_cache s1) = Some (new_metadata p b now) /\
    get_cached_file p now' s1 = (Return (Some b), s2).
Proof.
  intros Hp Hfit. do 2 eexists.
  split; [now apply CacheFacts.cache_file_within_limit |].
  assert (Hfs : disk (inserted p b now s) !! cache_path_of p b = Some b)
    by apply lookup_insert_eq.
  assert (Hm : Dict.get p (metadata_cache (inserted p b now s)) = Some (new_metadata p b now))
    by apply DictFacts.get_set_eq.
  split; [exact Hfs |]. split; [exact Hm |].
  eapply CacheFacts.get_cached_file_hit; [exact Hm | reflexivity | exact Hfs].
Qed.

Lemma cache_file_ignores_policy_witness :
  exists s1 s2,
    cache_file "video/stream.mp4" (kilobyte "v") 1 (fresh 512 4096) =
      (Return (cache_path_of "video/stream.mp4" (kilobyte "v")), s1) /\
    disk s1 !! cache_path_of "video/stream.mp4" (kilobyte "v") = Some (kilobyte "v") /\
    Dict.get "video/stream.mp4" (metadata_cache s1) =
      Some (new_metadata "video/stream.mp4" (kilobyte "v") 1) /\
    get_cached_file "video/stream.mp4" 2 s1 = (Return (Some (kilobyte "v")), s2).
Proof.
  apply cache_file_ignores_policy; [reflexivity | vm_compute; discriminate].
Defined.

Example stream_is_not_cacheable :
  should_cache (fresh 512 4096) "video/stream.mp4" 1024 = false /\
  should_cache (fresh 512 4096) "video/stream.json" 1024 = false.
Proof. vm_compute. split; reflexivity. Qed.

(** A negative limit keeps nothing: [_parse_size] accepts a sign, and in a
    cache constructed with no snapshot on disk and a limit below zero (and
    above [- 2^50]) every write of a path that [open] accepts returns with
    an empty index, so that the read that follows misses. *)
Theorem negative_limit_keeps_nothing (env : gmap string string) (fs : gmap string bytes)
    (s0 s : state) (p : string) (b : bytes) (now now' : Z) :
  AIStor env fs None = Started s0 ->
  reachable s0 s ->
  exact_limit (cache_size_limit s0) ->
  cache_size_limit s0 < 0 ->
  storable p = true ->
  exists s1,
    cache_file p b now s = (Return (cache_path_of p b), s1) /\
    metadata_cache s1 = [] /\
    get_cached_file p now' s1 = (Return None, s1).
Proof.
  intros Hinit Hreach _ Hneg Hp.
  pose proof (InvariantFacts.constructed_covers env fs s0 Hinit) as Hcov0.
  destruct (ConfigFacts.reachable_limit _ _ Hcov0 Hreach) as [Hcov Hlim].
  apply (InvariantFacts.inserted_covers p b now) in Hcov.
  set (s1 := inserted p b now s) in *.
  pose proof Hcov as (Hwf & Hsz & Hsum).
  destruct (EnforceFacts.enforce_run s1 Hwf) as (n & _ & Hrun & _ & _ & Hend).
  pose proof (InvariantFacts.enforce_covers s1 Hcov) as (_ & Hsz' & Hsum').
  pose proof (ConfigFacts.enforce_limit s1 Hwf) as Hlim'.
  rewrite Hrun in Hsz', Hsum', Hlim'. cbn [snd] in Hsz', Hsum', Hlim'.
  pose proof (SweepFacts.total_size_nonneg _ Hsz) as Hpos.
  pose proof (SweepFacts.total_size_nonneg _ Hsz') as Hpos'.
  assert (Hlim1 : cache_size_limit s1 = cache_size_limit s0) by exact Hlim.
  assert (Hempty : metadata_cache (evicted_all (List.firstn n (sorted_files s1)) s1) = []).
  { destruct (Hend ltac:(lia)) as [-> | Hlow].
    - rewrite List.firstn_all. now apply EnforceFacts.evicted_all_everything.
    - unfold low_water in Hlow. apply Z.leb_le in Hlow. lia. }
  rewrite CacheFacts.cache_file_unfold by exact Hp. fold s1. rewrite Hrun.
  eexists. split; [reflexivity |]. split; [exact Hempty |].
  apply CacheFacts.get_cached_file_miss. simpl. now rewrite Hempty.
Qed.

Lemma negative_limit_keeps_nothing_witness :
  exists s1,
    cache_file "a.json" (payload "x") 1 (fresh 1024 (-1)) =
      (Return (cache_path_of "a.json" (payload "x")), s1) /\
    metadata_cache s1 = [] /\
    get_cached_file "a.json" 2 s1 = (Return None, s1).
Proof.
  apply (negative_limit_keeps_nothing
           (<["CACHE_SIZE" := "-1"]> (<["SMALL_FILE_THRESHOLD" := "1024"]> ∅)) ∅
           (fresh 1024 (-1))).
  - vm_compute. reflexivity.
  - apply reachable_start.
  - reflexivity.
  - reflexivity.
  - reflexivity.
Defined.

Example negative_size_parses :
  _parse_size "-1" = Return (-1) /\ _parse_size "-5b" = Return (-5 * 1) /\
  __init__ (<["CACHE_SIZE" := "-1"]> (<["SMALL_FILE_THRESHOLD" := "1024"]> ∅)) ∅ =
    Return (fresh 1024 (-1)).
Proof. vm_compute. repeat split; reflexivity. Qed.



Example banner_at_the_edge_of_a_float :
  banner_overflow (fresh 1048576 (2 ^ 1034 - 2 ^ 980)) = true /\
  banner_overflow (fresh 1048576 (2 ^ 1034 - 2 ^ 980 - 1)) = false /\
  banner_overflow (fresh (- 2 ^ 1034) 1024) = true.
Proof. vm_compute. repeat split; reflexivity. Qed.

Example monitor_with_a_size_too_long_to_print :
  let h := {| cache := with_metadata_cache
                         [entry "a.json" (10 ^ 4300) 1 "/cache/small-files/a"]
                         (fresh 1048576 1024);
              metadata_file := None;
              monitor_out := [] |} in
  metadata_file (monitor_loop 1 h) = Some Garbage /\
  monitor_out (monitor_loop 1 h) = [Starting; Stats 1; Failure ValueError].
Proof. vm_compute. split; reflexivity. Qed.
